(** * LEGEND EXPERT photo enhancer bot: verification of [main.py]

    A shallow embedding of the verification cache, the membership check, the
    image pipeline and the photo handler of [src/main.py], and the properties
    of the specification that hold (or fail) on them.

    Layout: the embedding first (numbers, strings, Pillow, the Telegram bot,
    the functions of [main.py], concrete instances used by the examples),
    then the lemmas, one group per function. *)

From Stdlib Require Import ZArith QArith Qround Qpower Lqa Lia.
From Stdlib Require Import Strings.String Strings.Ascii Strings.Byte.
From Stdlib Require Import Floats.SpecFloat.
From stdpp Require Import base option gmap strings list.

(* ================================================================== *)
(** * Python floats *)
(* ================================================================== *)

(** Python's [float] is IEEE 754 binary64.  The only float arithmetic of
    [main.py] is in the resize step: [2000 / max(im.size)], [im.width * scale]
    and [int(...)].  A float is modelled by the rational it denotes, and every
    operation rounds its exact result to the nearest number with a 53 bit
    significand, ties to even.  The exponent range is not modelled: the
    operands here are image sizes (C ints in Pillow) and their quotients, far
    from overflow and from the subnormal range. *)
Module Float.

Local Open Scope Q_scope.

(** Nearest integer to [n / d] for [0 < d], ties to the even neighbour. *)
Definition round_half_even (n d : Z) : Z :=
  let q := (n / d)%Z in
  let r := (2 * (n mod d))%Z in
  if (r <? d)%Z then q
  else if (d <? r)%Z then (q + 1)%Z
  else if Z.even q then q else (q + 1)%Z.

(** [floor (log2 x)] for [0 < x]: the difference of the bit lengths of
    numerator and denominator is that number or one more. *)
Definition ilog2 (x : Q) : Z :=
  let k := (Z.log2 (Qnum x) - Z.log2 (Zpos (Qden x)))%Z in
  if Qle_bool (2 ^ k) x then k else (k - 1)%Z.

(** Rounding of a positive rational to 53 significant bits. *)
Definition fl_pos (x : Q) : Q :=
  let e := (ilog2 x - 52)%Z in
  let y := x / 2 ^ e in
  inject_Z (round_half_even (Qnum y) (Zpos (Qden y))) * 2 ^ e.

Definition fl (x : Q) : Q :=
  match Qcompare x 0 with
  | Eq => 0
  | Gt => fl_pos x
  | Lt => - fl_pos (- x)
  end.

(** [float(n)], the conversion Python applies to the [int] operand of a mixed
    [int * float]. *)
Definition float_of_int (n : Z) : Q := fl (inject_Z n).

(** [a / b] on two [int]s: true division, correctly rounded. *)
Definition int_truediv (a b : Z) : Q := fl (inject_Z a / inject_Z b).

(** [x * y] on two floats. *)
Definition float_mul (x y : Q) : Q := fl (x * y).

(** [int(x)]: truncation towards zero. *)
Definition int_of_float (x : Q) : Z := Z.quot (Qnum x) (Zpos (Qden x)).

(** The unit roundoff [2^-53]. *)
Definition u53 : Q := 1 # 9007199254740992.

(** ** Cross-check against the Standard Library's IEEE 754 specification *)

(** The rational denoted by a finite [spec_float]. *)
Definition SF2Q (f : spec_float) : Q :=
  match f with
  | S754_finite s m e => (if s then - (1) else 1) * inject_Z (Zpos m) * 2 ^ e
  | _ => 0
  end.

Definition binary64_of_Z (n : Z) : spec_float := binary_normalize 53 1024 n 0 false.
Definition binary64_div : spec_float -> spec_float -> spec_float := SFdiv 53 1024.
Definition binary64_mul : spec_float -> spec_float -> spec_float := SFmul 53 1024.

End Float.

(* ================================================================== *)
(** * Python strings *)
(* ================================================================== *)

(** A [str] is modelled by the string of its bytes (UTF-8 for the literals of
    [main.py]).  [lower] maps the ASCII capitals, which is what [str.lower]
    does on ASCII text such as the member statuses of the Bot API. *)
Module Str.

Definition lower_ascii (c : ascii) : ascii :=
  let n := nat_of_ascii c in
  if andb (65 <=? n)%nat (n <=? 90)%nat then ascii_of_nat (n + 32) else c.

Fixpoint lower (s : string) : string :=
  match s with
  | EmptyString => EmptyString
  | String c s' => String (lower_ascii c) (lower s')
  end.

(** [x in s] on two strings: [x] occurs in [s] as a contiguous substring. *)
Fixpoint contains (x s : string) : bool :=
  orb (String.prefix x s)
      match s with
      | EmptyString => false
      | String _ s' => contains x s'
      end.

(** [s.lstrip(c)] for a one-character argument. *)
Fixpoint lstrip (c : ascii) (s : string) : string :=
  match s with
  | EmptyString => EmptyString
  | String a s' => if Ascii.eqb a c then lstrip c s' else s
  end.

(** Truthiness of a [str]. *)
Definition nonempty (s : string) : bool :=
  match s with EmptyString => false | _ => true end.

(** What "case-insensitive" means, said without [lower]: two characters are
    the same letter when they are equal or one is an ASCII capital and the
    other its small letter, and two strings are the same ignoring case when
    they are so character by character. *)
Definition same_letter (c d : ascii) : bool :=
  let n := nat_of_ascii c in
  let m := nat_of_ascii d in
  orb (n =? m)%nat
      (orb (andb (andb (65 <=? n)%nat (n <=? 90)%nat) (m =? n + 32)%nat)
           (andb (andb (65 <=? m)%nat (m <=? 90)%nat) (n =? m + 32)%nat)).

Fixpoint same_ignoring_case (s t : string) : bool :=
  match s, t with
  | EmptyString, EmptyString => true
  | String c s', String d t' => andb (same_letter c d) (same_ignoring_case s' t')
  | _, _ => false
  end.

(** [c * n]: the string of [n] copies of the character [c]. *)
Fixpoint copies (n : nat) (c : ascii) : string :=
  match n with
  | O => EmptyString
  | S n' => String c (copies n' c)
  end.

End Str.

(* ================================================================== *)
(** * Exceptions and results *)
(* ================================================================== *)

Open Scope Z_scope.

(** A raised Python exception, by the name of its class: an instance of
    [Exception], which an [except Exception] clause catches, or another
    [BaseException] ([asyncio.CancelledError], [KeyboardInterrupt],
    [SystemExit]), which it lets through. *)
Inductive exc : Type :=
| Exception (cls : string)
| BaseException (cls : string).

(** [isinstance(e, Exception)]. *)
Definition is_Exception (e : exc) : bool :=
  match e with
  | Exception _ => true
  | BaseException _ => false
  end.

(** What evaluating a Python expression gives: a value or a raised
    exception. *)
Inductive result (A : Type) : Type :=
| Returns (a : A)
| Raises (e : exc).
Arguments Returns {A} a.
Arguments Raises {A} e.

#[global] Instance result_ret : MRet result := fun A a => Returns a.
#[global] Instance result_bind : MBind result := fun A B f r =>
  match r with
  | Returns a => f a
  | Raises e => Raises e
  end.

Definition is_returned {A} (r : result A) : bool :=
  match r with Returns _ => true | Raises _ => false end.

(** [bytes] objects. *)
Definition bytes : Type := list byte.

(** Truthiness of a [bytes] object. *)
Definition bytes_truthy (b : bytes) : bool :=
  match b with [] => false | _ => true end.

(* ================================================================== *)
(** * Pillow *)
(* ================================================================== *)

(** [ImageFilter] objects used by the pipeline. *)
Inductive ImageFilter : Type :=
| UnsharpMask (radius : Q) (percent threshold : Z)
| DETAIL.

(** [ImageEnhance] classes. *)
Inductive Enhancer : Type :=
| Color
| Contrast
| Brightness
| Sharpness.

(** Resampling filters of [Image.resize]. *)
Inductive Resampling : Type :=
| NEAREST
| BILINEAR
| BICUBIC
| LANCZOS.

(** The part of Pillow that [main.py] calls.  The library is not part of the
    repository, so its operations are the fields of an interface; what the
    lemmas assume of them is stated in [PillowLaws].  [Image_open] stands for
    [Image.open] together with the decoding that Pillow delays until the
    first use of the pixels, which here is the [convert] that follows at
    once. *)
Class Pillow := {
  Image : Type;
  im_size : Image -> Z * Z;
  im_mode : Image -> string;
  Image_open : bytes -> result Image;
  im_convert : string -> Image -> Image;
  im_resize : Z * Z -> Resampling -> Image -> result Image;
  im_filter : ImageFilter -> Image -> Image;
  im_enhance : Enhancer -> Q -> Image -> Image;
  im_save : Image -> string -> Z -> bool -> result bytes;
}.

Definition im_width `{Pillow} (im : Image) : Z := fst (im_size im).
Definition im_height `{Pillow} (im : Image) : Z := snd (im_size im).

(** [max(im.size)]. *)
Definition long_edge `{Pillow} (im : Image) : Z := Z.max (im_width im) (im_height im).

(** Facts about Pillow that the round-trip lemma relies on: the transforms
    keep the size (and, but for [convert], the mode) of the image, [resize]
    gives an image of the requested size, whether an image can be written
    depends on its mode and size only, and a JPEG that Pillow wrote is
    decoded again to an image of the same size. *)
Class PillowLaws `{Pillow} : Prop := {
  size_convert m im : im_size (im_convert m im) = im_size im;
  mode_convert m im : im_mode (im_convert m im) = m;
  size_resize sz r im im' : im_resize sz r im = Returns im' -> im_size im' = sz;
  mode_resize sz r im im' : im_resize sz r im = Returns im' -> im_mode im' = im_mode im;
  size_filter f im : im_size (im_filter f im) = im_size im;
  mode_filter f im : im_mode (im_filter f im) = im_mode im;
  size_enhance k x im : im_size (im_enhance k x im) = im_size im;
  mode_enhance k x im : im_mode (im_enhance k x im) = im_mode im;
  save_by_shape im im' fmt q o :
    im_mode im = im_mode im' -> im_size im = im_size im' ->
    is_returned (im_save im fmt q o) = is_returned (im_save im' fmt q o);
  open_saved im q o b :
    im_save im "JPEG" q o = Returns b ->
    exists im', Image_open b = Returns im' /\ im_size im' = im_size im;
}.

(* ================================================================== *)
(** * The image pipeline of [main.py] *)
(* ================================================================== *)

Section Pipeline.
Context `{Pillow}.

(** The size handed to [im.resize]:
    [scale = 2000 / max(im.size)] and
    [(int(im.width * scale), int(im.height * scale))]. *)
Definition resize_target (w h : Z) : Z * Z :=
  let scale := Float.int_truediv 2000 (Z.max w h) in
  (Float.int_of_float (Float.float_mul (Float.float_of_int w) scale),
   Float.int_of_float (Float.float_mul (Float.float_of_int h) scale)).

(** One component of that pair, [int(edge * (2000 / long))]. *)
Definition scaled_edge (edge long : Z) : Z :=
  Float.int_of_float
    (Float.float_mul (Float.float_of_int edge) (Float.int_truediv 2000 long)).

(** [enhance_image_bytes_sync], lines 100 to 119.  Each rebinding of [im] is
    a [let]; an exception raised by a Pillow call leaves the function. *)
Definition enhance_image_bytes_sync (original_bytes : bytes) : result bytes :=
  im ← Image_open original_bytes;
  let im := im_convert "RGB" im in
  im ← (if (2000 <? long_edge im)%Z
        then im_resize (resize_target (im_width im) (im_height im)) LANCZOS im
        else Returns im);
  let im := im_filter (UnsharpMask 1.5 150 3) im in
  let im := im_enhance Sharpness 1.3 im in
  let im := im_enhance Contrast 1.12 im in
  let im := im_enhance Color 1.08 im in
  let im := im_filter DETAIL im in
  im_save im "JPEG" 92 true.

(** ** The pipeline as the specification words it *)

(** The stages of section 4.3 of the specification between decoding and
    encoding, each with its parameters. *)
Inductive Stage : Type :=
| NormalizeRGB
| BoundingResize (bound : Z)
| UnsharpMaskStage (radius : Q) (amount_percent threshold : Z)
| SharpnessBoost (factor : Q)
| ContrastBoost (factor : Q)
| ColorBoost (factor : Q)
| DetailEnhancement.

(** The edge [edge'] is [edge] scaled by the factor [bound / long], up to
    one pixel of rounding. *)
Definition scaled_by (bound long edge edge' : Z) : Prop :=
  0 <= edge -> bound * edge / long - 1 <= edge' <= bound * edge / long + 1.

(** What section 4.3 asks of one stage: [stage_spec s im r] holds when [r] is
    what stage [s] may give on the image [im].  The bounding resize leaves an
    image whose long edge is at most the bound as it is, and otherwise
    resamples it (Lanczos) to a size whose long edge is at most the bound
    and whose edges are those of [im] scaled by [bound / long edge]. *)
Definition stage_spec (s : Stage) (im : Image) (r : result Image) : Prop :=
  match s with
  | NormalizeRGB => r = Returns (im_convert "RGB" im)
  | BoundingResize bound =>
      if long_edge im <=? bound
      then r = Returns im
      else exists size : Z * Z,
             r = im_resize size LANCZOS im
             /\ Z.max (fst size) (snd size) <= bound
             /\ scaled_by bound (long_edge im) (im_width im) (fst size)
             /\ scaled_by bound (long_edge im) (im_height im) (snd size)
  | UnsharpMaskStage radius percent threshold =>
      r = Returns (im_filter (UnsharpMask radius percent threshold) im)
  | SharpnessBoost x => r = Returns (im_enhance Sharpness x im)
  | ContrastBoost x => r = Returns (im_enhance Contrast x im)
  | ColorBoost x => r = Returns (im_enhance Color x im)
  | DetailEnhancement => r = Returns (im_filter DETAIL im)
  end.

(** The stages of a list one after the other, each on the image the one
    before gave; a stage that fails ends the chain with its exception. *)
Fixpoint stages_spec (l : list Stage) (im : Image) (r : result Image) : Prop :=
  match l with
  | [] => r = Returns im
  | s :: l' =>
      exists r1, stage_spec s im r1
                 /\ match r1 with
                    | Returns im' => stages_spec l' im' r
                    | Raises e => r = Raises e
                    end
  end.

(** Stages 1 to 7 in the order in which section 4.3 lists them. *)
Definition spec_stages : list Stage :=
  [ NormalizeRGB;
    BoundingResize 2000;
    UnsharpMaskStage 1.5 150 3;
    SharpnessBoost 1.3;
    ContrastBoost 1.12;
    ColorBoost 1.08;
    DetailEnhancement ].

(** Stage 1 (decode), the stages above, stage 8 (JPEG, quality 92,
    optimisation on): [pipeline_spec b r] holds when [r] is what the pipeline
    of section 4.3 may give on the bytes [b]. *)
Definition pipeline_spec (b : bytes) (r : result bytes) : Prop :=
  match Image_open b with
  | Raises e => r = Raises e
  | Returns im =>
      exists r1, stages_spec spec_stages im r1
                 /\ match r1 with
                    | Returns im' => r = im_save im' "JPEG" 92 true
                    | Raises e => r = Raises e
                    end
  end.

End Pipeline.

(* ================================================================== *)
(** * The Telegram bot and the state of the process *)
(* ================================================================== *)

(** [InlineKeyboardButton] and [InlineKeyboardMarkup]. *)
Record InlineKeyboardButton : Type := {
  button_text : string;
  button_url : option string;
  button_callback_data : option string;
}.

Definition InlineKeyboardMarkup : Type := list (list InlineKeyboardButton).

(** The requests that [main.py] awaits on the Bot API.  A message or a file
    is named by its id. *)
Inductive Call : Type :=
| GetChatMember (chat_id : string) (user_id : Z)
| GetFile (file_id : string)
| DownloadAsBytearray (file_id : string)
| ReplyText (text : string) (reply_markup : option InlineKeyboardMarkup)
| EditText (message_id : Z) (text : string)
| SendPhoto (chat_id : Z) (photo : bytes) (caption : string)
| DeleteMessage (message_id : Z)
| AnswerCallbackQuery
| EditMessageText (text : string).

(** What the platform answers to an awaited request: the seconds that went
    by while the handler was suspended and the value or the exception the
    [await] gives. *)
Record Reply (A : Type) : Type := {
  elapsed : Z;
  outcome : result A;
}.
Arguments elapsed {A} _.
Arguments outcome {A} _.

(** The platform, external to the repository.  One run of a handler awaits
    every request at most once, so the answers are functions of the
    arguments.  [member_status] is what [str(member.status)] gives on the
    answer of [get_chat_member]. *)
Record Telegram : Type := {
  member_status : string -> Z -> Reply string;
  file_of_id : string -> Reply string;
  file_content : string -> Reply bytes;
  sent_text : string -> option InlineKeyboardMarkup -> Reply Z;
  edited_text : Z -> string -> Reply unit;
  sent_photo : Z -> bytes -> string -> Reply unit;
  deleted_message : Z -> Reply unit;
  answered_query : Reply unit;
  edited_message_text : string -> Reply unit;
}.

(** The configuration that [main.py] reads from the environment when it is
    imported. *)
Record Config : Type := {
  CHANNEL_USERNAME : string;
  REPLICATE_API_TOKEN : option string;
}.

(** Truthiness of [REPLICATE_API_TOKEN]: set and not empty. *)
Definition token_truthy (t : option string) : bool :=
  match t with
  | Some s => Str.nonempty s
  | None => false
  end.

(** The state a handler runs in: the module-level dict [verified_users]
    (user id to expiry time), the clock that [time.time()] reads, and the
    requests made so far.  Times are in seconds and the clock of the model
    counts whole seconds.  [is_verified] only compares times, which is the
    same on integers and on floats; the one sum the code forms,
    [time.time() + VERIFIED_TTL], is exact in binary64 on whole seconds, and
    rounded to the nearest float when the reading has a fraction. *)
Record World : Type := {
  verified_users : gmap Z Z;
  clock : Z;
  calls : list Call;
}.

(** A coroutine or function of [main.py]: it runs from a state, returns or
    raises, and leaves a state.  What it did to the state before raising
    stays done. *)
Definition Proc (A : Type) : Type := World -> result A * World.

#[global] Instance proc_ret : MRet Proc := fun A a w => (Returns a, w).

#[global] Instance proc_bind : MBind Proc := fun A B k c w =>
  match c w with
  | (Returns a, w') => k a w'
  | (Raises e, w') => (Raises e, w')
  end.

Definition raise {A} (e : exc) : Proc A := fun w => (Raises e, w).

(** [try: c except Exception as e: h e].  An exception that is no instance
    of [Exception] goes on as it is. *)
Definition try_except {A} (c : Proc A) (h : exc -> Proc A) : Proc A := fun w =>
  match c w with
  | (Returns a, w') => (Returns a, w')
  | (Raises e, w') => if is_Exception e then h e w' else (Raises e, w')
  end.

(** The state once [dt] seconds have gone by and the requests [cs] have been
    made. *)
Definition later (dt : Z) (cs : list Call) (w : World) : World :=
  {| verified_users := verified_users w;
     clock := clock w + dt;
     calls := calls w ++ cs |}.

(** The state after a request: it is recorded and the clock has moved on. *)
Definition after_call {A} (c : Call) (r : Reply A) (w : World) : World :=
  later (elapsed r) [c] w.

(** [await] on a request of the Bot API. *)
Definition await {A} (c : Call) (r : Reply A) : Proc A := fun w =>
  (outcome r, after_call c r w).

(** A synchronous call that touches no state, such as the work handed to the
    executor by [run_in_executor]. *)
Definition lift {A} (r : result A) : Proc A := fun w => (r, w).

(** [time.time()]. *)
Definition time_time : Proc Z := fun w => (Returns (clock w), w).

(** [verified_users.get(user_id)]. *)
Definition verified_users_get (user_id : Z) : Proc (option Z) := fun w =>
  (Returns (verified_users w !! user_id), w).

(** [verified_users[user_id] = exp]. *)
Definition verified_users_set (user_id exp : Z) : Proc unit := fun w =>
  (Returns tt,
   {| verified_users := <[user_id := exp]> (verified_users w);
      clock := clock w;
      calls := calls w |}).

(** The state without the entry of [user_id]. *)
Definition without_user (user_id : Z) (w : World) : World :=
  {| verified_users := delete user_id (verified_users w);
     clock := clock w;
     calls := calls w |}.

(** [del verified_users[user_id]], a [KeyError] when the key is missing. *)
Definition verified_users_del (user_id : Z) : Proc unit := fun w =>
  match verified_users w !! user_id with
  | Some _ => (Returns tt, without_user user_id w)
  | None => (Raises (Exception "KeyError"), w)
  end.

(** Truthiness of what [dict.get] gives: [None] and [0.0] are false. *)
Definition exp_truthy (exp : option Z) : bool :=
  match exp with
  | Some e => negb (e =? 0)
  | None => false
  end.

(** What a handler reads of the incoming [Update]. *)
Record Update : Type := {
  effective_user_id : Z;
  effective_chat_id : Z;
  message_photo : list string;
}.

(* ================================================================== *)
(** * The functions of [main.py] *)
(* ================================================================== *)

Definition ALLOWED_STATUS_STRINGS : gset string :=
  {[ "creator"; "owner"; "administrator"; "admin"; "member" ]}.

Definition VERIFIED_TTL : Z := 12 * 3600.

Section Main.
Context `{Pillow} (cfg : Config) (tg : Telegram).

(** [build_join_keyboard], lines 54 to 63. *)
Definition build_join_keyboard : InlineKeyboardMarkup :=
  let join_button :=
    {| button_text := "Join Channel";
       button_url := Some ("https://t.me/" ++ Str.lstrip "@" (CHANNEL_USERNAME cfg))%string;
       button_callback_data := None |} in
  let check_button :=
    {| button_text := "I've Joined — Check";
       button_url := None;
       button_callback_data := Some "check_membership" |} in
  [[join_button]; [check_button]].

(** [any(x in status for x in ALLOWED_STATUS_STRINGS)].  The order in which
    a set is traversed does not change what [any] gives. *)
Definition any_allowed_in (status : string) : bool :=
  existsb (fun x => Str.contains x status) (elements ALLOWED_STATUS_STRINGS).

(** [check_user_membership], lines 77 to 87.  The warning written to the log
    in the handler is not part of the state. *)
Definition check_user_membership (chat_id : string) (user_id : Z)
    : Proc (bool * option string) :=
  try_except
    (member_status ← await (GetChatMember chat_id user_id) (member_status tg chat_id user_id);
     let status := Str.lower member_status in
     if any_allowed_in status
     then mret (true, None)
     else mret (false, Some "not_member"))
    (fun e => mret (false, Some "error")).

(** [is_verified], lines 89 to 96. *)
Definition is_verified (user_id : Z) : Proc bool :=
  exp ← verified_users_get user_id;
  if negb (exp_truthy exp) then mret false
  else
    now ← time_time;
    if (default 0 exp <? now)%Z
    then verified_users_del user_id;; mret false
    else mret true.

(** [verified_users[user.id] = time.time() + VERIFIED_TTL], the statement of
    lines 153 and 184, with the duration as an argument.  On the whole
    seconds of the model the binary64 sum is the exact one. *)
Definition mark_verified (user_id ttl : Z) : Proc unit :=
  now ← time_time;
  verified_users_set user_id (now + ttl).

(** [enhance_image_bytes_local], lines 122 to 124: the synchronous pipeline
    run in the default executor and awaited. *)
Definition enhance_image_bytes_local (original_bytes : bytes) : Proc bytes :=
  lift (enhance_image_bytes_sync original_bytes).

(** [enhance_image_bytes], lines 127 to 135.  The [try] block gives
    [Some enhanced] where it returns from the function and [None] where
    control goes on to the last line. *)
Definition enhance_image_bytes (original_bytes : bytes) : Proc bytes :=
  early ←
    (if token_truthy (REPLICATE_API_TOKEN cfg)
     then
       try_except
         (enhanced ← enhance_image_bytes_local original_bytes;
          if bytes_truthy enhanced then mret (Some enhanced) else mret None)
         (fun _ => mret None)
     else mret None);
  match early with
  | Some enhanced => mret enhanced
  | None => enhance_image_bytes_local original_bytes
  end.

(** [photo_handler], lines 139 to 173.  [go_on] is [false] where the handler
    returns inside the membership check. *)
Definition photo_handler (update : Update) : Proc unit :=
  let user_id := effective_user_id update in
  let chat_id := effective_chat_id update in
  verified ← is_verified user_id;
  go_on ←
    (if negb verified
     then
       '(ok, reason) ← check_user_membership (CHANNEL_USERNAME cfg) user_id;
       if negb ok
       then
         let text := "❌ Please join the channel first and verify." in
         let markup := Some build_join_keyboard in
         await (ReplyText text markup) (sent_text tg text markup);;
         mret false
       else
         mark_verified user_id VERIFIED_TTL;;
         mret true
     else mret true);
  if negb go_on then mret tt
  else
    match last (message_photo update) with
    | None => raise (Exception "IndexError")
    | Some photo =>
        tg_file ← await (GetFile photo) (file_of_id tg photo);
        file_bytes ← await (DownloadAsBytearray tg_file) (file_content tg tg_file);
        let text := "⏳ Enhancing your photo, please wait..." in
        msg ← await (ReplyText text None) (sent_text tg text None);
        enhanced ← enhance_image_bytes file_bytes;
        if negb (bytes_truthy enhanced)
        then
          let text := "❌ Enhancement failed." in
          await (EditText msg text) (edited_text tg msg text)
        else
          let caption := "✨ Enhanced by LEGEND EXPERT" in
          await (SendPhoto chat_id enhanced caption) (sent_photo tg chat_id enhanced caption);;
          await (DeleteMessage msg) (deleted_message tg msg)
    end.

(** Lines 155 to 173 of [photo_handler] on their own: what the handler does
    once the membership gate is passed. *)
Definition fetch_enhance_deliver (update : Update) : Proc unit :=
  let chat_id := effective_chat_id update in
  match last (message_photo update) with
  | None => raise (Exception "IndexError")
  | Some photo =>
      tg_file ← await (GetFile photo) (file_of_id tg photo);
      file_bytes ← await (DownloadAsBytearray tg_file) (file_content tg tg_file);
      let text := "⏳ Enhancing your photo, please wait..." in
      msg ← await (ReplyText text None) (sent_text tg text None);
      enhanced ← enhance_image_bytes file_bytes;
      if negb (bytes_truthy enhanced)
      then
        let text := "❌ Enhancement failed." in
        await (EditText msg text) (edited_text tg msg text)
      else
        let caption := "✨ Enhanced by LEGEND EXPERT" in
        await (SendPhoto chat_id enhanced caption) (sent_photo tg chat_id enhanced caption);;
        await (DeleteMessage msg) (deleted_message tg msg)
  end.

(** [callback_query_handler], lines 176 to 191. *)
Definition callback_query_handler (update : Update) : Proc unit :=
  await AnswerCallbackQuery (answered_query tg);;
  '(ok, reason) ← check_user_membership (CHANNEL_USERNAME cfg) (effective_user_id update);
  if (ok : bool)
  then
    mark_verified (effective_user_id update) VERIFIED_TTL;;
    let text := "✅ Verified!
Send a photo and LEGEND EXPERT will enhance it ✨" in
    await (EditMessageText text) (edited_message_text tg text)
  else
    let text := "❌ Please join the channel first." in
    await (EditMessageText text) (edited_message_text tg text).

End Main.

(* ================================================================== *)
(** * Concrete instances for the examples *)
(* ================================================================== *)

(** A raster-free stand-in for Pillow: an image is its mode and size, and its
    encoding is a five byte header, a tag and the two sizes on 16 bits each
    (the range of a JPEG frame header). *)
Module Toy.

Record image : Type := {
  mode : string;
  width : Z;
  height : Z;
}.

Definition byte_of_Z (z : Z) : byte :=
  byte_of_ascii (ascii_of_N (Z.to_N z)).

Definition Z_of_byte (b : byte) : Z :=
  Z.of_N (N_of_ascii (ascii_of_byte b)).

Definition fits (z : Z) : bool := (1 <=? z) && (z <=? 65535).

Definition encode (w h : Z) : bytes :=
  [ "J"%byte; byte_of_Z (w / 256); byte_of_Z (w mod 256);
    byte_of_Z (h / 256); byte_of_Z (h mod 256) ].

Definition decode (b : bytes) : result image :=
  match b with
  | [ tag; w1; w0; h1; h0 ] =>
      if Byte.eqb tag "J"%byte
      then Returns {| mode := "RGB";
                      width := 256 * Z_of_byte w1 + Z_of_byte w0;
                      height := 256 * Z_of_byte h1 + Z_of_byte h0 |}
      else Raises (Exception "UnidentifiedImageError")
  | _ => Raises (Exception "UnidentifiedImageError")
  end.

Definition resize (sz : Z * Z) (im : image) : result image :=
  if (1 <=? fst sz) && (1 <=? snd sz)
  then Returns {| mode := mode im; width := fst sz; height := snd sz |}
  else Raises (Exception "ValueError").

Definition save (im : image) (format : string) : result bytes :=
  if String.eqb format "JPEG" && String.eqb (mode im) "RGB"
     && fits (width im) && fits (height im)
  then Returns (encode (width im) (height im))
  else Raises (Exception "OSError").

#[export] Instance pillow : Pillow := {|
  Image := image;
  im_size := fun im => (width im, height im);
  im_mode := mode;
  Image_open := decode;
  im_convert := fun m im => {| mode := m; width := width im; height := height im |};
  im_resize := fun sz _ im => resize sz im;
  im_filter := fun _ im => im;
  im_enhance := fun _ _ im => im;
  im_save := fun im format _ _ => save im format;
|}.

(** A platform on which every request is answered after one second: the
    member status and the content of every file are the two arguments, sent
    messages get the id 7. *)
Definition telegram (status : result string) (content : result bytes) : Telegram := {|
  member_status := fun _ _ => {| elapsed := 1; outcome := status |};
  file_of_id := fun file_id => {| elapsed := 1; outcome := Returns file_id |};
  file_content := fun _ => {| elapsed := 1; outcome := content |};
  sent_text := fun _ _ => {| elapsed := 1; outcome := Returns 7 |};
  edited_text := fun _ _ => {| elapsed := 1; outcome := Returns tt |};
  sent_photo := fun _ _ _ => {| elapsed := 1; outcome := Returns tt |};
  deleted_message := fun _ => {| elapsed := 1; outcome := Returns tt |};
  answered_query := {| elapsed := 1; outcome := Returns tt |};
  edited_message_text := fun _ => {| elapsed := 1; outcome := Returns tt |};
|}.

(** The same platform, but that it refuses every photo. *)
Definition telegram_refusing_photos (status : result string) (content : result bytes)
    : Telegram := {|
  member_status := member_status (telegram status content);
  file_of_id := file_of_id (telegram status content);
  file_content := file_content (telegram status content);
  sent_text := sent_text (telegram status content);
  edited_text := edited_text (telegram status content);
  sent_photo := fun _ _ _ => {| elapsed := 1; outcome := Raises (Exception "Forbidden") |};
  deleted_message := deleted_message (telegram status content);
  answered_query := answered_query (telegram status content);
  edited_message_text := edited_message_text (telegram status content);
|}.

Definition config (token : option string) : Config := {|
  CHANNEL_USERNAME := "@legendxexpert";
  REPLICATE_API_TOKEN := token;
|}.

Definition world (users : gmap Z Z) (now : Z) : World := {|
  verified_users := users;
  clock := now;
  calls := [];
|}.

Definition update (user_id : Z) : Update := {|
  effective_user_id := user_id;
  effective_chat_id := 500;
  message_photo := ["small"; "large"]%string;
|}.

End Toy.

(* ================================================================== *)
(** * Rounding error of the float operations *)
(* ================================================================== *)

Module FloatFacts.
Import Float.
Local Open Scope Q_scope.

Lemma round_half_even_near (n d : Z) :
  (0 < d)%Z ->
  (- d <= 2 * (round_half_even n d * d - n) <= d)%Z.
Proof.
  intros Hd. unfold round_half_even.
  pose proof (Z.div_mod n d ltac:(lia)) as E.
  pose proof (Z.mod_pos_bound n d Hd) as B.
  destruct (Z.ltb_spec (2 * (n mod d)) d);
    [ | destruct (Z.ltb_spec d (2 * (n mod d))); [ | destruct (Z.even (n / d)) ] ];
    nia.
Qed.

Lemma round_half_even_Q (y : Q) :
  let m := inject_Z (round_half_even (Qnum y) (Zpos (Qden y))) in
  y - (1 # 2) <= m /\ m <= y + (1 # 2).
Proof.
  intros m. subst m.
  pose proof (round_half_even_near (Qnum y) (Zpos (Qden y)) ltac:(lia)) as Hr.
  set (r := round_half_even (Qnum y) (Zpos (Qden y))) in *.
  clearbody r. destruct y as [n d]. cbn [Qnum Qden] in Hr.
  unfold Qle, Qminus, Qopp, Qplus, inject_Z. cbn [Qnum Qden].
  rewrite ?Pos2Z.inj_mul. split; lia.
Qed.

Lemma pow2_pos (k : Z) : 0 < 2 ^ k.
Proof. apply Qpower_0_lt. reflexivity. Qed.

Lemma pow2_add (a b : Z) : 2 ^ (a + b) == 2 ^ a * 2 ^ b.
Proof. apply Qpower_plus. discriminate. Qed.

Lemma pow2_inject (k : Z) : (0 <= k)%Z -> 2 ^ k == inject_Z (2 ^ k).
Proof.
  intros Hk. change 2 with (inject_Z 2) at 1. symmetry.
  apply Zpower_Qpower. exact Hk.
Qed.

Lemma Q_numerator (x : Q) : inject_Z (Qnum x) == x * inject_Z (Zpos (Qden x)).
Proof. destruct x as [n d]. unfold Qeq, inject_Z, Qmult. simpl. lia. Qed.

(** [ilog2 x] is the floor of the binary logarithm of [x]. *)
Lemma ilog2_spec (x : Q) : 0 < x -> 2 ^ ilog2 x <= x /\ x < 2 ^ (ilog2 x + 1).
Proof.
  intros Hx. unfold ilog2.
  set (a := Z.log2 (Qnum x)). set (b := Z.log2 (Zpos (Qden x))).
  assert (Hn : (0 < Qnum x)%Z).
  { destruct x as [n d]. unfold Qlt in Hx. simpl in *. lia. }
  assert (Ha : (0 <= a)%Z) by apply Z.log2_nonneg.
  assert (Hb : (0 <= b)%Z) by apply Z.log2_nonneg.
  destruct (Z.log2_spec (Qnum x) Hn) as [Hnlo Hnhi]. fold a in Hnlo, Hnhi.
  destruct (Z.log2_spec (Zpos (Qden x)) ltac:(lia)) as [Hdlo Hdhi]. fold b in Hdlo, Hdhi.
  change (Z.succ a) with (a + 1)%Z in Hnhi. change (Z.succ b) with (b + 1)%Z in Hdhi.
  pose proof (Q_numerator x) as Hfrac.
  assert (Hd0 : 0 < inject_Z (Zpos (Qden x))) by reflexivity.
  set (n := inject_Z (Qnum x)) in *. set (d := inject_Z (Zpos (Qden x))) in *.
  assert (Hn1 : 2 ^ a <= n).
  { rewrite pow2_inject by lia. subst n. rewrite <- Zle_Qle. exact Hnlo. }
  assert (Hn2 : n < 2 ^ (a + 1)).
  { rewrite pow2_inject by lia. subst n. rewrite <- Zlt_Qlt. exact Hnhi. }
  assert (Hd1 : 2 ^ b <= d).
  { rewrite pow2_inject by lia. subst d. rewrite <- Zle_Qle. exact Hdlo. }
  assert (Hd2 : d < 2 ^ (b + 1)).
  { rewrite pow2_inject by lia. subst d. rewrite <- Zlt_Qlt. exact Hdhi. }
  destruct (Qle_bool (2 ^ (a - b)) x) eqn:E.
  - split; [ apply Qle_bool_iff; exact E | ].
    (* x * 2^b <= x * d = n < 2^(a+1) = 2^(a-b+1) * 2^b *)
    assert (E1 : 2 ^ (a + 1) == 2 ^ (a - b + 1) * 2 ^ b).
    { rewrite <- pow2_add. replace (a - b + 1 + b)%Z with (a + 1)%Z by lia. reflexivity. }
    pose proof (pow2_pos b) as Hpb.
    apply Qnot_le_lt. intros Hle.
    assert (2 ^ (a - b + 1) * 2 ^ b <= x * d).
    { apply Qle_trans with (x * 2 ^ b).
      - apply Qmult_le_compat_r; lra.
      - rewrite !(Qmult_comm x). apply Qmult_le_compat_r; lra. }
    rewrite <- E1, <- Hfrac in H. lra.
  - assert (Hlt : x < 2 ^ (a - b)).
    { apply Qnot_le_lt. intros Hle. apply Qle_bool_iff in Hle. congruence. }
    replace (a - b - 1 + 1)%Z with (a - b)%Z by lia.
    split; [ | exact Hlt ].
    assert (E1 : 2 ^ a == 2 ^ (a - b - 1) * 2 ^ (b + 1)).
    { rewrite <- pow2_add. replace (a - b - 1 + (b + 1))%Z with a by lia. reflexivity. }
    pose proof (pow2_pos (a - b - 1)) as Hp.
    apply Qnot_lt_le. intros Hgt.
    assert (x * d < 2 ^ (a - b - 1) * 2 ^ (b + 1)).
    { apply Qle_lt_trans with (x * 2 ^ (b + 1)).
      - rewrite !(Qmult_comm x). apply Qmult_le_compat_r; lra.
      - apply Qmult_lt_compat_r; [ apply pow2_pos | exact Hgt ]. }
    rewrite <- E1, <- Hfrac in H. lra.
Qed.

(** Rounding to 53 bits moves a positive number by at most [2^-53] of
    itself. *)
Lemma fl_pos_error (x : Q) :
  0 < x -> x * (1 - u53) <= fl_pos x /\ fl_pos x <= x * (1 + u53).
Proof.
  intros Hx. unfold fl_pos.
  set (e := (ilog2 x - 52)%Z).
  pose proof (pow2_pos e) as Hp.
  destruct (ilog2_spec x Hx) as [Hl _].
  replace (ilog2 x) with (e + 52)%Z in Hl by (subst e; lia).
  rewrite pow2_add in Hl.
  change (2 ^ 52) with (4503599627370496 # 1) in Hl.
  set (p := 2 ^ e) in *.
  set (y := x / p).
  destruct (round_half_even_Q y) as [Hlo Hhi].
  set (m := inject_Z (round_half_even (Qnum y) (Zpos (Qden y)))) in *.
  assert (Hy : x == y * p) by (subst y; field; lra).
  assert (H1 : (y - (1 # 2)) * p <= m * p) by (apply Qmult_le_compat_r; lra).
  assert (H2 : m * p <= (y + (1 # 2)) * p) by (apply Qmult_le_compat_r; lra).
  unfold u53. split.
  - apply Qle_trans with ((y - (1 # 2)) * p); [ | exact H1 ].
    rewrite Hy at 1. rewrite Hy in Hl. lra.
  - apply Qle_trans with ((y + (1 # 2)) * p); [ exact H2 | ].
    rewrite Hy at 1. rewrite Hy in Hl. lra.
Qed.

Lemma fl_zero (x : Q) : x == 0 -> fl x = 0.
Proof.
  intros E. unfold fl. destruct (Qcompare x 0) eqn:C.
  - reflexivity.
  - apply Qlt_alt in C. lra.
  - apply Qgt_alt in C. lra.
Qed.

Lemma fl_positive (x : Q) : 0 < x -> fl x = fl_pos x.
Proof.
  intros Hx. unfold fl. destruct (Qcompare x 0) eqn:C.
  - apply Qeq_alt in C. lra.
  - apply Qlt_alt in C. lra.
  - reflexivity.
Qed.

Lemma fl_negative (x : Q) : x < 0 -> fl x = - fl_pos (- x).
Proof.
  intros Hx. unfold fl. destruct (Qcompare x 0) eqn:C.
  - apply Qeq_alt in C. lra.
  - reflexivity.
  - apply Qgt_alt in C. lra.
Qed.

Lemma fl_error (x : Q) :
  0 < x -> x * (1 - u53) <= fl x /\ fl x <= x * (1 + u53).
Proof. intros Hx. rewrite fl_positive by exact Hx. apply fl_pos_error, Hx. Qed.

Lemma fl_gt_0 (x : Q) : 0 < x -> 0 < fl x.
Proof.
  intros Hx. destruct (fl_error x Hx) as [Hlo _].
  apply Qlt_le_trans with (x * (1 - u53)); [ | exact Hlo ].
  apply Qmult_lt_0_compat; [ exact Hx | reflexivity ].
Qed.

Lemma fl_le_0 (x : Q) : x <= 0 -> fl x <= 0.
Proof.
  intros Hx. destruct (Qlt_le_dec x 0) as [Hneg | Hnn].
  - rewrite fl_negative by exact Hneg.
    assert (Hp : 0 < - x) by lra.
    pose proof (fl_gt_0 (- x) Hp) as Hf. rewrite fl_positive in Hf by exact Hp. lra.
  - rewrite fl_zero by lra. lra.
Qed.

Lemma int_of_float_lt (x : Q) (k : Z) :
  0 <= x -> x < inject_Z k -> (0 <= int_of_float x < k)%Z.
Proof.
  destruct x as [n d]. unfold Qle, Qlt, int_of_float, inject_Z. cbn [Qnum Qden].
  intros H0 Hk. split.
  - apply Z.quot_pos; lia.
  - apply Z.quot_lt_upper_bound; lia.
Qed.

Lemma int_of_float_ge (x : Q) (k : Z) :
  inject_Z k <= x -> (k <= int_of_float x)%Z.
Proof.
  destruct x as [n d]. unfold Qle, int_of_float, inject_Z. cbn [Qnum Qden].
  intros Hk. apply Z.quot_le_lower_bound; lia.
Qed.

Lemma int_of_float_nonpos (x : Q) : x <= 0 -> (int_of_float x <= 0)%Z.
Proof.
  destruct x as [n d]. unfold Qle, int_of_float. cbn [Qnum Qden].
  intros Hx. assert (Hn : (n <= 0)%Z) by lia.
  replace n with (- - n)%Z by lia. rewrite Z.quot_opp_l by lia.
  pose proof (Z.quot_pos (- n) (Zpos d) ltac:(lia) ltac:(lia)). lia.
Qed.

End FloatFacts.

(* ================================================================== *)
(** * The resize step *)
(* ================================================================== *)

Module ResizeFacts.
Import Float FloatFacts.

Lemma resize_target_edges (w h : Z) :
  resize_target w h = (scaled_edge w (Z.max w h), scaled_edge h (Z.max w h)).
Proof. reflexivity. Qed.

Section Bounds.
Local Open Scope Q_scope.

(** The float product behind [scaled_edge w m], within three roundings of
    [w * 2000 / m]. *)
Lemma scaled_product_bounds (w m : Z) :
  (0 < w <= m)%Z ->
  let p := float_mul (float_of_int w) (int_truediv 2000 m) in
  inject_Z w * (2000 / inject_Z m) * ((1 - u53) * (1 - u53) * (1 - u53)) <= p /\
  p <= inject_Z w * (2000 / inject_Z m) * ((1 + u53) * (1 + u53) * (1 + u53)).
Proof.
  intros [Hw Hm] p. subst p. unfold float_mul, float_of_int, int_truediv.
  assert (Hw' : 0 < inject_Z w) by (rewrite Zlt_Qlt in Hw; exact Hw).
  assert (Hm' : 0 < inject_Z m).
  { assert (Hm0 : (0 < m)%Z) by lia. rewrite Zlt_Qlt in Hm0. exact Hm0. }
  change (inject_Z 2000) with 2000.
  assert (Ht : 0 < 2000 / inject_Z m).
  { apply Qlt_shift_div_l; [ exact Hm' | lra ]. }
  set (t := 2000 / inject_Z m) in *. set (a := inject_Z w) in *.
  destruct (fl_error a Hw') as [A1 A2]. destruct (fl_error t Ht) as [T1 T2].
  pose proof (fl_gt_0 a Hw') as A0. pose proof (fl_gt_0 t Ht) as T0.
  set (A := fl a) in *. set (T := fl t) in *.
  assert (HAT : 0 < A * T) by (apply Qmult_lt_0_compat; assumption).
  destruct (fl_error (A * T) HAT) as [P1 P2].
  assert (U1 : 0 <= 1 - u53) by (unfold u53; lra).
  assert (U2 : 0 <= 1 + u53) by (unfold u53; lra).
  assert (L : a * (1 - u53) * (t * (1 - u53)) <= A * T).
  { apply Qle_trans with (a * (1 - u53) * T).
    - rewrite !(Qmult_comm (a * (1 - u53))).
      apply Qmult_le_compat_r; [ exact T1 | ]. apply Qmult_le_0_compat; lra.
    - apply Qmult_le_compat_r; lra. }
  assert (R : A * T <= a * (1 + u53) * (t * (1 + u53))).
  { apply Qle_trans with (a * (1 + u53) * T).
    - apply Qmult_le_compat_r; lra.
    - rewrite !(Qmult_comm (a * (1 + u53))).
      apply Qmult_le_compat_r; [ exact T2 | ]. apply Qmult_le_0_compat; lra. }
  split.
  - apply Qle_trans with (A * T * (1 - u53)); [ | exact P1 ].
    apply Qle_trans with (a * (1 - u53) * (t * (1 - u53)) * (1 - u53)).
    + apply Qle_lteq. right. ring.
    + apply Qmult_le_compat_r; assumption.
  - apply Qle_trans with (A * T * (1 + u53)); [ exact P2 | ].
    apply Qle_trans with (a * (1 + u53) * (t * (1 + u53)) * (1 + u53)).
    + apply Qmult_le_compat_r; assumption.
    + apply Qle_lteq. right. ring.
Qed.

Lemma scaled_edge_zero (m : Z) : scaled_edge 0 m = 0%Z.
Proof.
  unfold scaled_edge, float_mul, float_of_int.
  rewrite (fl_zero (inject_Z 0)) by reflexivity.
  rewrite fl_zero by ring. reflexivity.
Qed.

Lemma scaled_edge_nonpos (w m : Z) :
  (w <= 0)%Z -> (0 < m)%Z -> (scaled_edge w m <= 0)%Z.
Proof.
  intros Hw Hm. unfold scaled_edge, float_mul, float_of_int, int_truediv.
  apply int_of_float_nonpos, fl_le_0.
  assert (Ha : fl (inject_Z w) <= 0).
  { apply fl_le_0. change 0 with (inject_Z 0). rewrite <- Zle_Qle. exact Hw. }
  assert (Hm' : 0 < inject_Z m) by (rewrite Zlt_Qlt in Hm; exact Hm).
  assert (Ht : 0 < fl (inject_Z 2000 / inject_Z m)).
  { apply fl_gt_0. apply Qlt_shift_div_l; [ exact Hm' | ].
    change (inject_Z 2000) with 2000. lra. }
  set (A := fl (inject_Z w)) in *.
  set (T := fl (inject_Z 2000 / inject_Z m)) in *.
  assert (H0 : A * T <= 0 * T) by (apply Qmult_le_compat_r; lra).
  lra.
Qed.

Lemma scaled_edge_le (w m : Z) :
  (0 <= w <= m)%Z -> (0 <= scaled_edge w m <= 2000)%Z.
Proof.
  intros [Hw Hm].
  assert (Hc : (w = 0 \/ 0 < w)%Z) by lia. destruct Hc as [-> | Hpos].
  { rewrite scaled_edge_zero. lia. }
  destruct (scaled_product_bounds w m ltac:(lia)) as [Lo Hi].
  unfold scaled_edge. set (p := float_mul _ _) in *.
  assert (Hw' : 0 < inject_Z w) by (rewrite Zlt_Qlt in Hpos; exact Hpos).
  assert (Hm' : 0 < inject_Z m).
  { assert (Hm0 : (0 < m)%Z) by lia. rewrite Zlt_Qlt in Hm0. exact Hm0. }
  assert (Hwm : inject_Z w <= inject_Z m) by (rewrite <- Zle_Qle; exact Hm).
  set (a := inject_Z w) in *. set (b := inject_Z m) in *.
  assert (Ht : 0 < 2000 / b) by (apply Qlt_shift_div_l; [ exact Hm' | lra ]).
  assert (Hb : b * (2000 / b) == 2000) by (field; lra).
  assert (Hat : a * (2000 / b) <= 2000).
  { apply Qle_trans with (b * (2000 / b)); [ | rewrite Hb; lra ].
    apply Qmult_le_compat_r; lra. }
  assert (Hat0 : 0 < a * (2000 / b)) by (apply Qmult_lt_0_compat; assumption).
  set (q := a * (2000 / b)) in *.
  assert (K : (1 + u53) * (1 + u53) * (1 + u53) <= 4001 # 4000)
    by (vm_compute; discriminate).
  assert (K0 : 0 <= (1 - u53) * (1 - u53) * (1 - u53))
    by (vm_compute; discriminate).
  set (c := (1 + u53) * (1 + u53) * (1 + u53)) in *.
  set (c0 := (1 - u53) * (1 - u53) * (1 - u53)) in *.
  assert (P0 : 0 <= p).
  { apply Qle_trans with (q * c0); [ | exact Lo ]. apply Qmult_le_0_compat; lra. }
  assert (P1 : p < inject_Z 2001).
  { change (inject_Z 2001) with 2001.
    apply Qle_lt_trans with (q * c); [ exact Hi | ].
    apply Qle_lt_trans with (q * (4001 # 4000)).
    - rewrite !(Qmult_comm q). apply Qmult_le_compat_r; lra.
    - lra. }
  pose proof (int_of_float_lt p 2001 P0 P1). lia.
Qed.

Lemma scaled_edge_long (m : Z) :
  (0 < m)%Z -> (1999 <= scaled_edge m m <= 2000)%Z.
Proof.
  intros Hm. split; [ | apply scaled_edge_le; lia ].
  destruct (scaled_product_bounds m m ltac:(lia)) as [Lo _].
  unfold scaled_edge. set (p := float_mul _ _) in *.
  assert (Hm' : 0 < inject_Z m) by (rewrite Zlt_Qlt in Hm; exact Hm).
  set (b := inject_Z m) in *.
  assert (Hb : b * (2000 / b) == 2000) by (field; lra).
  rewrite Hb in Lo.
  apply int_of_float_ge. change (inject_Z 1999) with 1999.
  apply Qle_trans with (2000 * ((1 - u53) * (1 - u53) * (1 - u53))); [ | exact Lo ].
  vm_compute. discriminate.
Qed.

End Bounds.

Section Floor.
Local Open Scope Q_scope.

(** The float product behind [scaled_edge h m] is within [2^-39] of the exact
    quotient [2000 h / m]. *)
Lemma scaled_product_near (h m : Z) :
  (0 < h <= m)%Z ->
  let p := float_mul (float_of_int h) (int_truediv 2000 m) in
  let x := inject_Z h * (2000 / inject_Z m) in
  x - (1 # 549755813888) <= p /\ p <= x + (1 # 549755813888) /\ 0 < x /\ x <= 2000
  /\ 0 <= p.
Proof.
  intros [Hh Hm] p x.
  destruct (scaled_product_bounds h m ltac:(lia)) as [Lo Hi]. fold p x in Lo, Hi.
  assert (Hh' : 0 < inject_Z h) by (rewrite Zlt_Qlt in Hh; exact Hh).
  assert (Hm' : 0 < inject_Z m).
  { assert (Hm0 : (0 < m)%Z) by lia. rewrite Zlt_Qlt in Hm0. exact Hm0. }
  assert (Hhm : inject_Z h <= inject_Z m) by (rewrite <- Zle_Qle; exact Hm).
  assert (Ht : 0 < 2000 / inject_Z m) by (apply Qlt_shift_div_l; [ exact Hm' | lra ]).
  assert (Hb : inject_Z m * (2000 / inject_Z m) == 2000) by (field; lra).
  assert (Hx0 : 0 < x) by (apply Qmult_lt_0_compat; assumption).
  assert (Hx1 : x <= 2000).
  { apply Qle_trans with (inject_Z m * (2000 / inject_Z m)); [ | rewrite Hb; lra ].
    apply Qmult_le_compat_r; lra. }
  clearbody p x.
  assert (K : (1 + u53) * (1 + u53) * (1 + u53) - 1 <= 1 # 1099511627776000)
    by (vm_compute; discriminate).
  assert (K0 : 1 - (1 - u53) * (1 - u53) * (1 - u53) <= 1 # 1099511627776000)
    by (vm_compute; discriminate).
  assert (Kp : 0 <= (1 + u53) * (1 + u53) * (1 + u53) - 1)
    by (vm_compute; discriminate).
  assert (K0p : 0 <= 1 - (1 - u53) * (1 - u53) * (1 - u53))
    by (vm_compute; discriminate).
  assert (C0p : 0 <= (1 - u53) * (1 - u53) * (1 - u53))
    by (vm_compute; discriminate).
  set (c := (1 + u53) * (1 + u53) * (1 + u53)) in *.
  set (c0 := (1 - u53) * (1 - u53) * (1 - u53)) in *.
  assert (P0 : 0 <= p).
  { apply Qle_trans with (x * c0); [ | exact Lo ]. apply Qmult_le_0_compat; lra. }
  assert (E1 : x * (c - 1) <= 2000 * (c - 1)) by (apply Qmult_le_compat_r; lra).
  assert (E0 : x * (1 - c0) <= 2000 * (1 - c0)) by (apply Qmult_le_compat_r; lra).
  assert (Ec : x * c == x + x * (c - 1)) by ring.
  assert (Ec0 : x * c0 == x - x * (1 - c0)) by ring.
  rewrite Ec in Hi. rewrite Ec0 in Lo.
  repeat split; lra.
Qed.

End Floor.

(** Each edge of the requested size is within one pixel of the integer
    quotient [2000 * edge / long], whatever the size of the image. *)
Lemma scaled_edge_near (h m : Z) :
  0 <= h <= m -> 0 < m ->
  2000 * h / m - 1 <= scaled_edge h m <= 2000 * h / m + 1.
Proof.
  intros [Hh Hhm] Hm0.
  assert (Hc : h = 0 \/ 0 < h) by lia. destruct Hc as [-> | Hpos].
  { rewrite scaled_edge_zero. change (2000 * 0) with 0. rewrite Zdiv_0_l. lia. }
  destruct (scaled_product_near h m ltac:(lia)) as (Lo & Hi & Hx0 & Hx1 & Hp0).
  unfold scaled_edge. set (p := float_mul _ _) in *.
  set (x := (inject_Z h * (2000 / inject_Z m))%Q) in *.
  pose proof (Z.div_mod (2000 * h) m ltac:(lia)) as Hdiv.
  pose proof (Z.mod_pos_bound (2000 * h) m Hm0) as Hmod.
  set (q := 2000 * h / m) in *. set (r := (2000 * h) mod m) in *.
  assert (Hm' : (0 < inject_Z m)%Q) by (rewrite Zlt_Qlt in Hm0; exact Hm0).
  assert (Hm1 : (1 <= inject_Z m)%Q).
  { change 1%Q with (inject_Z 1). rewrite <- Zle_Qle. lia. }
  assert (Hxm : (x * inject_Z m == inject_Z q * inject_Z m + inject_Z r)%Q).
  { subst x. rewrite <- inject_Z_mult, <- inject_Z_plus.
    replace (q * m + r) with (2000 * h) by lia.
    rewrite inject_Z_mult. change (inject_Z 2000) with 2000%Q. field. lra. }
  assert (Hr0 : (0 <= inject_Z r)%Q).
  { change 0%Q with (inject_Z 0). rewrite <- Zle_Qle. lia. }
  assert (Hr1 : (inject_Z r + 1 <= inject_Z m)%Q).
  { change 1%Q with (inject_Z 1). rewrite <- inject_Z_plus, <- Zle_Qle. lia. }
  set (M := inject_Z m) in *. set (Qq := inject_Z q) in *. set (R := inject_Z r) in *.
  assert (Hpm_hi : (p * M <= x * M + (1 # 549755813888) * M)%Q).
  { apply Qle_trans with ((x + (1 # 549755813888)) * M)%Q.
    - apply Qmult_le_compat_r; lra.
    - apply Qle_lteq. right. ring. }
  assert (Hpm_lo : (x * M - (1 # 549755813888) * M <= p * M)%Q).
  { apply Qle_trans with ((x - (1 # 549755813888)) * M)%Q.
    - apply Qle_lteq. right. ring.
    - apply Qmult_le_compat_r; lra. }
  assert (Hup : (p < inject_Z (q + 2))%Q).
  { apply (proj1 (Qmult_lt_r _ _ M Hm')). rewrite inject_Z_plus. fold Qq.
    change (inject_Z 2) with 2%Q.
    assert (E : ((Qq + 2) * M == Qq * M + 2 * M)%Q) by ring. rewrite E. lra. }
  pose proof (int_of_float_lt p (q + 2) Hp0 Hup) as [_ Hle].
  assert (Hlow : (inject_Z (q - 1) <= p)%Q).
  { unfold Z.sub. rewrite inject_Z_plus. fold Qq. change (inject_Z (- 1)) with (- (1))%Q.
    apply Qnot_lt_le. intros Hlt.
    assert (HA : (p * M < (Qq + - (1)) * M)%Q) by (apply Qmult_lt_compat_r; assumption).
    assert (E : ((Qq + - (1)) * M == Qq * M - M)%Q) by ring. rewrite E in HA. lra. }
  pose proof (int_of_float_ge p (q - 1) Hlow) as Hge.
  lia.
Qed.

(** Whatever the size of the image, no edge of the requested size is longer
    than 2000. *)
Lemma resize_target_le (w h : Z) :
  0 < Z.max w h ->
  fst (resize_target w h) <= 2000 /\ snd (resize_target w h) <= 2000.
Proof.
  intros Hm. rewrite resize_target_edges. cbn [fst snd].
  assert (Hedge : forall e, e <= Z.max w h -> scaled_edge e (Z.max w h) <= 2000).
  { intros e He. destruct (Z_le_gt_dec 0 e).
    - apply scaled_edge_le. lia.
    - pose proof (scaled_edge_nonpos e (Z.max w h) ltac:(lia) Hm). lia. }
  split; apply Hedge; lia.
Qed.

(** The long edge of the requested size is 1999 or 2000. *)
Lemma resize_target_long (w h : Z) :
  0 < Z.max w h ->
  1999 <= Z.max (fst (resize_target w h)) (snd (resize_target w h)) <= 2000.
Proof.
  intros Hm. destruct (resize_target_le w h Hm) as [Hw Hh].
  split; [ | lia ].
  rewrite resize_target_edges. cbn [fst snd].
  pose proof (scaled_edge_long (Z.max w h) Hm) as [L _].
  destruct (Z.max_spec w h) as [[_ E] | [_ E]]; rewrite E in *; lia.
Qed.

End ResizeFacts.

(* ================================================================== *)
(** * The image pipeline *)
(* ================================================================== *)

Module PipelineFacts.
Import ResizeFacts.

(** The rounding model gives the numbers of the Standard Library's binary64
    operations on the operands of the examples below. *)
Example fl_agrees_with_binary64 :
  Qred (Float.int_truediv 2000 2105)
  = Qred (Float.SF2Q (Float.binary64_div (Float.binary64_of_Z 2000) (Float.binary64_of_Z 2105)))
  /\ Qred (Float.float_mul (Float.float_of_int 2105) (Float.int_truediv 2000 2105))
     = Qred (Float.SF2Q (Float.binary64_mul (Float.binary64_of_Z 2105)
               (Float.binary64_div (Float.binary64_of_Z 2000) (Float.binary64_of_Z 2105))))
  /\ Qred (Float.float_mul (Float.float_of_int 1000) (Float.int_truediv 2000 2105))
     = Qred (Float.SF2Q (Float.binary64_mul (Float.binary64_of_Z 1000)
               (Float.binary64_div (Float.binary64_of_Z 2000) (Float.binary64_of_Z 2105))))
  /\ Qred (Float.float_mul (Float.float_of_int 2001) (Float.int_truediv 2000 2001))
     = Qred (Float.SF2Q (Float.binary64_mul (Float.binary64_of_Z 2001)
               (Float.binary64_div (Float.binary64_of_Z 2000) (Float.binary64_of_Z 2001)))).
Proof. vm_compute. repeat split; reflexivity. Qed.

(** The scenario of the specification: 4000 x 3000 becomes 2000 x 1500. *)
Example resize_4000_3000 : resize_target 4000 3000 = (2000, 1500).
Proof. vm_compute. reflexivity. Qed.

(** An image whose long edge is 2001 gets the long edge 2000. *)
Lemma resize_2001 (h : Z) :
  0 <= h <= 2001 ->
  Z.max (fst (resize_target 2001 h)) (snd (resize_target 2001 h)) = 2000.
Proof.
  intros Hh. rewrite resize_target_edges. cbn [fst snd].
  replace (Z.max 2001 h) with 2001 by lia.
  assert (E : scaled_edge 2001 2001 = 2000) by (vm_compute; reflexivity).
  rewrite E. pose proof (scaled_edge_le h 2001 ltac:(lia)). lia.
Qed.

Section Generic.
Context `{PillowLaws}.

(** The five transforms between the resize and [save] keep the size and the
    mode. *)
Lemma size_after_transforms (im : Image) :
  im_size (im_filter DETAIL
            (im_enhance Color 1.08
              (im_enhance Contrast 1.12
                (im_enhance Sharpness 1.3
                  (im_filter (UnsharpMask 1.5 150 3) im)))))
  = im_size im.
Proof. rewrite size_filter, !size_enhance, size_filter. reflexivity. Qed.

Lemma mode_after_transforms (im : Image) :
  im_mode (im_filter DETAIL
            (im_enhance Color 1.08
              (im_enhance Contrast 1.12
                (im_enhance Sharpness 1.3
                  (im_filter (UnsharpMask 1.5 150 3) im)))))
  = im_mode im.
Proof. rewrite mode_filter, !mode_enhance, mode_filter. reflexivity. Qed.

(** An image whose long edge is at most 2000 is not resized: the pipeline is
    the five transforms and the [save]. *)
Lemma no_resize_up_to_2000 (b : bytes) (im : Image) :
  Image_open b = Returns im ->
  long_edge im <= 2000 ->
  enhance_image_bytes_sync b
  = im_save (im_filter DETAIL
              (im_enhance Color 1.08
                (im_enhance Contrast 1.12
                  (im_enhance Sharpness 1.3
                    (im_filter (UnsharpMask 1.5 150 3) (im_convert "RGB" im))))))
            "JPEG" 92 true.
Proof.
  intros Ho Hle. unfold enhance_image_bytes_sync. rewrite Ho. cbn.
  assert (E : long_edge (im_convert "RGB" im) = long_edge im).
  { unfold long_edge, im_width, im_height. rewrite size_convert. reflexivity. }
  rewrite E. destruct (Z.ltb_spec 2000 (long_edge im)); [ lia | reflexivity ].
Qed.

(** What the pipeline returns is the encoding of an RGB image whose long
    edge is at most 2000. *)
Lemma pipeline_output (b out : bytes) :
  enhance_image_bytes_sync b = Returns out ->
  exists im : Image,
    im_save im "JPEG" 92 true = Returns out /\
    im_mode im = "RGB"%string /\
    long_edge im <= 2000.
Proof.
  unfold enhance_image_bytes_sync.
  destruct (Image_open b) as [im0 | e]; cbn; [ | discriminate ].
  set (im1 := im_convert "RGB" im0).
  destruct (Z.ltb_spec 2000 (long_edge im1)) as [Hbig | Hsmall].
  - destruct (im_resize _ LANCZOS im1) as [im2 | e] eqn:R; cbn; [ | discriminate ].
    intros Hs. eexists. split; [ exact Hs | ].
    split.
    + rewrite mode_after_transforms, (mode_resize _ _ _ _ R). apply mode_convert.
    + unfold long_edge, im_width, im_height. rewrite size_after_transforms.
      rewrite (size_resize _ _ _ _ R).
      destruct (resize_target_le (im_width im1) (im_height im1)) as [Hw Hh].
      { unfold long_edge in Hbig. lia. }
      lia.
  - intros Hs. eexists. split; [ exact Hs | ].
    split.
    + rewrite mode_after_transforms. apply mode_convert.
    + unfold long_edge, im_width, im_height. rewrite size_after_transforms.
      exact Hsmall.
Qed.

End Generic.

(** The guarded branch of [enhance_image_bytes] runs the local pipeline, and
    so does the last line: the token makes no difference. *)
Lemma enhance_image_bytes_run `{Pillow} (cfg : Config) (b : bytes) (w : World) :
  enhance_image_bytes cfg b w = (enhance_image_bytes_sync b, w).
Proof.
  unfold enhance_image_bytes, enhance_image_bytes_local, lift, try_except.
  unfold mbind, proc_bind, mret, proc_ret.
  destruct (token_truthy (REPLICATE_API_TOKEN cfg)).
  - destruct (enhance_image_bytes_sync b) as [out | e].
    + destruct (bytes_truthy out); reflexivity.
    + destruct (is_Exception e); reflexivity.
  - reflexivity.
Qed.

End PipelineFacts.

(* ================================================================== *)
(** * The stand-in for Pillow satisfies the laws *)
(* ================================================================== *)

Module ToyFacts.

Lemma Z_of_byte_of_Z (z : Z) : 0 <= z < 256 -> Toy.Z_of_byte (Toy.byte_of_Z z) = z.
Proof.
  intros Hz. unfold Toy.Z_of_byte, Toy.byte_of_Z.
  rewrite ascii_of_byte_of_ascii, N_ascii_embedding by lia. lia.
Qed.

Lemma decode_encode (w h : Z) :
  0 <= w <= 65535 -> 0 <= h <= 65535 ->
  Toy.decode (Toy.encode w h)
  = Returns {| Toy.mode := "RGB"; Toy.width := w; Toy.height := h |}.
Proof.
  intros Hw Hh. unfold Toy.decode, Toy.encode. cbn [Byte.eqb].
  change (Byte.eqb "J" "J") with true. cbv iota.
  rewrite !Z_of_byte_of_Z.
  - f_equal. f_equal; symmetry; apply Z.div_mod; lia.
  - apply Z.mod_pos_bound; lia.
  - split; [ apply Z.div_pos; lia | apply Z.div_lt_upper_bound; lia ].
  - apply Z.mod_pos_bound; lia.
  - split; [ apply Z.div_pos; lia | apply Z.div_lt_upper_bound; lia ].
Qed.

#[export] Instance laws : @PillowLaws Toy.pillow.
Proof.
  split; cbn.
  - reflexivity.
  - reflexivity.
  - intros [w h] _ im im'. unfold Toy.resize. cbn [fst snd].
    destruct (_ && _); [ | discriminate ]. intros [= <-]. reflexivity.
  - intros [w h] _ im im'. unfold Toy.resize.
    destruct (_ && _); [ | discriminate ]. intros [= <-]. reflexivity.
  - reflexivity.
  - reflexivity.
  - reflexivity.
  - reflexivity.
  - intros im im' fmt _ _ Hm [= Hw Hh]. unfold Toy.save. rewrite Hm, Hw, Hh. reflexivity.
  - intros im _ _ b. unfold Toy.save. change (String.eqb "JPEG" "JPEG") with true.
    cbn [andb]. unfold Toy.fits.
    destruct (String.eqb _ _); [ | discriminate ]. cbn [andb].
    destruct (Z.leb_spec 1 (Toy.width im)); [ | discriminate ].
    destruct (Z.leb_spec (Toy.width im) 65535); [ | discriminate ].
    destruct (Z.leb_spec 1 (Toy.height im)); [ | discriminate ].
    destruct (Z.leb_spec (Toy.height im) 65535); [ | discriminate ].
    cbn [andb]. intros [= <-]. eexists. split.
    + apply decode_encode; lia.
    + reflexivity.
Qed.

End ToyFacts.

(* ================================================================== *)
(** * Properties of the pipeline stated by the specification *)
(* ================================================================== *)

Module PipelineClaims.
Import ResizeFacts PipelineFacts.

(** C3, at an input where the code departs from it.  The specification asks
    that an image whose long edge exceeds 2000 be scaled so that the long
    edge is exactly 2000.  For a 2105 x 1000 image the product
    [2105 * (2000 / 2105)] is rounded to the float just below 2000, [int]
    truncates it, and the image is resized to 1999 x 950; the JPEG written
    for such an input has that size. *)
Theorem resize_2105_gives_1999 :
  resize_target 2105 1000 = (1999, 950)
  /\ @enhance_image_bytes_sync Toy.pillow (Toy.encode 2105 1000)
     = Returns (Toy.encode 1999 950).
Proof. vm_compute. split; reflexivity. Qed.


(** C8: when the pipeline succeeds on [b], it succeeds again on its own
    output, and what it then returns is an image whose long edge is at most
    2000. *)
Theorem round_trip_bounded `{PillowLaws} (b out : bytes) :
  enhance_image_bytes_sync b = Returns out ->
  exists (out2 : bytes) (im2 : Image),
    enhance_image_bytes_sync out = Returns out2 /\
    Image_open out2 = Returns im2 /\
    long_edge im2 <= 2000.
Proof.
  intros Hrun.
  destruct (pipeline_output b out Hrun) as (im & Hsave & Hmode & Hlong).
  destruct (open_saved im 92 true out Hsave) as (im' & Hopen & Hsize).
  assert (Hlong' : long_edge im' <= 2000).
  { unfold long_edge, im_width, im_height in *. rewrite Hsize. exact Hlong. }
  pose proof (no_resize_up_to_2000 out im' Hopen Hlong') as Hrun2.
  set (im1 := im_filter DETAIL _) in Hrun2.
  assert (Hsize1 : im_size im1 = im_size im).
  { subst im1. rewrite size_after_transforms, size_convert. exact Hsize. }
  assert (Hmode1 : im_mode im1 = im_mode im).
  { subst im1. rewrite mode_after_transforms, mode_convert, Hmode. reflexivity. }
  pose proof (save_by_shape im1 im "JPEG" 92 true Hmode1 Hsize1) as Hshape.
  rewrite Hsave in Hshape. cbn in Hshape.
  destruct (im_save im1 "JPEG" 92 true) as [out2 | e] eqn:Hsave2; [ | discriminate ].
  destruct (open_saved im1 92 true out2 Hsave2) as (im2 & Hopen2 & Hsize2).
  exists out2, im2. repeat split; try assumption.
  unfold long_edge, im_width, im_height in *. rewrite Hsize2, Hsize1. exact Hlong.
Qed.

Lemma round_trip_bounded_witness :
  @enhance_image_bytes_sync Toy.pillow (Toy.encode 2105 1000)
  = Returns (Toy.encode 1999 950)
  /\ exists (out2 : bytes) (im2 : Toy.image),
       @enhance_image_bytes_sync Toy.pillow (Toy.encode 1999 950) = Returns out2 /\
       Toy.decode out2 = Returns im2 /\
       Z.max (Toy.width im2) (Toy.height im2) <= 2000.
Proof.
  assert (E : @enhance_image_bytes_sync Toy.pillow (Toy.encode 2105 1000)
              = Returns (Toy.encode 1999 950)) by (vm_compute; reflexivity).
  split; [ exact E | ].
  exact (@round_trip_bounded Toy.pillow ToyFacts.laws _ _ E).
Defined.

(** C10: whatever the configuration, and so whether or not
    [REPLICATE_API_TOKEN] is set, [enhance_image_bytes] does what
    [enhance_image_bytes_local] does: same result, same final state. *)
Theorem token_changes_nothing `{Pillow} (cfg : Config) (b : bytes) (w : World) :
  enhance_image_bytes cfg b w = enhance_image_bytes_local b w.
Proof.
  rewrite enhance_image_bytes_run. reflexivity.
Qed.

End PipelineClaims.

(* ================================================================== *)
(** * Strings *)
(* ================================================================== *)

Module StrFacts.
Import Str.
Local Open Scope string_scope.

Lemma prefix_iff (x s : string) :
  String.prefix x s = true <-> exists post, s = x ++ post.
Proof.
  revert s. induction x as [ | c x IH ]; intros s.
  - split; [ intros _; exists s; reflexivity | intros _; destruct s; reflexivity ].
  - destruct s as [ | d s ]; cbn [String.prefix].
    + split; [ discriminate | intros [post E]; discriminate ].
    + destruct (ascii_dec c d) as [-> | Hne].
      * rewrite IH. split; intros [post E]; exists post.
        -- rewrite E. reflexivity.
        -- change (String d s = String d (x ++ post)) in E. congruence.
      * split; [ discriminate | ].
        intros [post E]. change (String d s = String c (x ++ post)) in E. congruence.
Qed.

(** [contains x s] holds exactly when [x] is a contiguous part of [s]. *)
Lemma contains_iff (x s : string) :
  contains x s = true <-> exists pre post, s = pre ++ x ++ post.
Proof.
  induction s as [ | d s IH ]; cbn [contains]; rewrite orb_true_iff, prefix_iff.
  - split.
    + intros [[post E] | Hf]; [ | discriminate ]. exists "", post. exact E.
    + intros (pre & post & E). left. destruct pre; [ | discriminate ].
      exists post. exact E.
  - rewrite IH. split.
    + intros [[post E] | (pre & post & E)].
      * exists "", post. exact E.
      * exists (String d pre), post. rewrite E. reflexivity.
    + intros (pre & post & E). destruct pre as [ | c pre ].
      * left. exists post. exact E.
      * right. exists pre, post.
        change (String d s = String c (pre ++ x ++ post)) in E. congruence.
Qed.

Lemma lower_ascii_idempotent (c : ascii) : lower_ascii (lower_ascii c) = lower_ascii c.
Proof. destruct c as [[] [] [] [] [] [] [] []]; vm_compute; reflexivity. Qed.

(** Lowering is idempotent: a status and its lower-case form are mapped
    alike. *)
Lemma lower_idempotent (s : string) : lower (lower s) = lower s.
Proof.
  induction s as [ | c s IH ]; cbn [lower]; [ reflexivity | ].
  rewrite lower_ascii_idempotent, IH. reflexivity.
Qed.

Lemma lower_ascii_code (c : ascii) :
  nat_of_ascii (lower_ascii c)
  = if andb (65 <=? nat_of_ascii c)%nat (nat_of_ascii c <=? 90)%nat
    then (nat_of_ascii c + 32)%nat
    else nat_of_ascii c.
Proof.
  unfold lower_ascii.
  destruct (Nat.leb_spec 65 (nat_of_ascii c)); cbn [andb]; [ | reflexivity ].
  destruct (Nat.leb_spec (nat_of_ascii c) 90); [ | reflexivity ].
  apply nat_ascii_embedding. lia.
Qed.

(** Two characters are the same letter exactly when [lower] maps them to the
    same character. *)
Lemma same_letter_iff (c d : ascii) :
  same_letter c d = true <-> lower_ascii c = lower_ascii d.
Proof.
  split.
  - intros Hs.
    rewrite <- (ascii_nat_embedding (lower_ascii c)),
            <- (ascii_nat_embedding (lower_ascii d)).
    f_equal. rewrite !lower_ascii_code. unfold same_letter in Hs.
    destruct (Nat.leb_spec 65 (nat_of_ascii c)), (Nat.leb_spec (nat_of_ascii c) 90),
             (Nat.leb_spec 65 (nat_of_ascii d)), (Nat.leb_spec (nat_of_ascii d) 90),
             (Nat.eqb_spec (nat_of_ascii c) (nat_of_ascii d)),
             (Nat.eqb_spec (nat_of_ascii d) (nat_of_ascii c + 32)),
             (Nat.eqb_spec (nat_of_ascii c) (nat_of_ascii d + 32));
      cbn in Hs |- *; try discriminate; lia.
  - intros He. apply (f_equal nat_of_ascii) in He.
    rewrite !lower_ascii_code in He. unfold same_letter.
    destruct (Nat.leb_spec 65 (nat_of_ascii c)), (Nat.leb_spec (nat_of_ascii c) 90),
             (Nat.leb_spec 65 (nat_of_ascii d)), (Nat.leb_spec (nat_of_ascii d) 90),
             (Nat.eqb_spec (nat_of_ascii c) (nat_of_ascii d)),
             (Nat.eqb_spec (nat_of_ascii d) (nat_of_ascii c + 32)),
             (Nat.eqb_spec (nat_of_ascii c) (nat_of_ascii d + 32));
      cbn in He |- *; try reflexivity; lia.
Qed.

(** Two strings are the same ignoring case exactly when [lower] maps them to
    the same string. *)
Lemma same_ignoring_case_iff (s t : string) :
  same_ignoring_case s t = true <-> lower s = lower t.
Proof.
  revert t. induction s as [ | c s IH ]; intros [ | d t ]; cbn [same_ignoring_case lower].
  - split; reflexivity.
  - split; discriminate.
  - split; discriminate.
  - rewrite andb_true_iff, same_letter_iff, IH. split.
    + intros [-> ->]. reflexivity.
    + intros [= -> ->]. split; reflexivity.
Qed.

Lemma lower_app (a b : string) : lower (a ++ b) = lower a ++ lower b.
Proof.
  induction a as [ | c a IH ]; [ reflexivity | ].
  change (lower (String c (a ++ b)) = String (lower_ascii c) (lower a ++ lower b)).
  cbn [lower]. rewrite IH. reflexivity.
Qed.

(** A split of [lower s] comes from a split of [s]. *)
Lemma lower_app_inv (s a b : string) :
  lower s = a ++ b ->
  exists s1 s2, s = s1 ++ s2 /\ lower s1 = a /\ lower s2 = b.
Proof.
  revert s. induction a as [ | c a IH ]; intros s E.
  - exists "", s. repeat split. exact E.
  - destruct s as [ | d s ]; [ discriminate | ].
    change (String (lower_ascii d) (lower s) = String c (a ++ b)) in E.
    injection E as Ec Es. destruct (IH s Es) as (s1 & s2 & -> & H1 & H2).
    exists (String d s1), s2. repeat split.
    + cbn [lower]. rewrite Ec, H1. reflexivity.
    + exact H2.
Qed.

End StrFacts.

(* ================================================================== *)
(** * Running the procedures *)
(* ================================================================== *)

(** Unfolds the plumbing of [Proc]. *)
Ltac proc_unfold :=
  unfold mbind, proc_bind, mret, proc_ret, try_except, lift, await, raise,
    time_time, verified_users_get, verified_users_set, verified_users_del in *.

(* ================================================================== *)
(** * The membership check *)
(* ================================================================== *)

Module MembershipFacts.

Lemma any_allowed_in_iff (status : string) :
  any_allowed_in status = true
  <-> exists x, x ∈ ALLOWED_STATUS_STRINGS /\ Str.contains x status = true.
Proof.
  unfold any_allowed_in. generalize ALLOWED_STATUS_STRINGS as allowed.
  intros allowed. rewrite existsb_exists.
  split; intros (x & Hin & Hc); exists x; (split; [ | exact Hc ]).
  - rewrite <- elem_of_elements, list_elem_of_In. exact Hin.
  - rewrite <- list_elem_of_In, elem_of_elements. exact Hin.
Qed.

(** What [check_user_membership] does, by the answer of the platform. *)
Lemma check_user_membership_run (tg : Telegram) (chat_id : string) (user_id : Z)
    (w : World) :
  check_user_membership tg chat_id user_id w
  = (match outcome (member_status tg chat_id user_id) with
     | Returns status =>
         Returns (if any_allowed_in (Str.lower status)
                  then (true, None)
                  else (false, Some "not_member"%string))
     | Raises e =>
         if is_Exception e
         then Returns (false, Some "error"%string)
         else Raises e
     end,
     after_call (GetChatMember chat_id user_id) (member_status tg chat_id user_id) w).
Proof.
  unfold check_user_membership, after_call. proc_unfold.
  destruct (outcome (member_status tg chat_id user_id)) as [status | e].
  - destruct (any_allowed_in (Str.lower status)); reflexivity.
  - destruct (is_Exception e); reflexivity.
Qed.

End MembershipFacts.

Module MembershipClaims.
Import MembershipFacts.

(** Every string of [ALLOWED_STATUS_STRINGS] is in lower case. *)
Lemma allowed_is_lower (x : string) :
  x ∈ ALLOWED_STATUS_STRINGS -> Str.lower x = x.
Proof.
  unfold ALLOWED_STATUS_STRINGS.
  rewrite !elem_of_union, !elem_of_singleton.
  intros [[[[-> | ->] | ->] | ->] | ->]; vm_compute; reflexivity.
Qed.

(** The verdict of the check depends on the lower-cased status alone. *)
Lemma verdict_by_lower (tg : Telegram) (chat_id : string) (user_id : Z) (w : World)
    (status : string) :
  outcome (member_status tg chat_id user_id) = Returns status ->
  fst (check_user_membership tg chat_id user_id w)
  = Returns (if any_allowed_in (Str.lower status)
             then (true, None)
             else (false, Some "not_member"%string)).
Proof. intros Hst. rewrite check_user_membership_run, Hst. reflexivity. Qed.

(** C4: when the platform answers the status [status],
    [check_user_membership] gives [(True, None)] when [status] is
    "administrator", "member", "creator" or "owner" written in any mix of
    capitals and small letters, and [(False, "not_member")] when it is
    "left", "kicked" or "restricted" in any such writing.  In general it
    gives [(True, None)] exactly when some part of [status] is, ignoring
    case, a string of [ALLOWED_STATUS_STRINGS], and [(False, "not_member")]
    otherwise; two statuses that are the same ignoring case get the same
    verdict. *)
Theorem status_mapping (tg : Telegram) (chat_id : string) (user_id : Z) (w : World)
    (status : string) :
  outcome (member_status tg chat_id user_id) = Returns status ->
  let r := fst (check_user_membership tg chat_id user_id w) in
  (forall x, In x ["administrator"; "member"; "creator"; "owner"]%string ->
     Str.same_ignoring_case status x = true ->
     r = Returns (true, None))
  /\ (forall x, In x ["left"; "kicked"; "restricted"]%string ->
        Str.same_ignoring_case status x = true ->
        r = Returns (false, Some "not_member"%string))
  /\ (r = Returns (true, None)
      <-> exists x pre part post,
            x ∈ ALLOWED_STATUS_STRINGS /\
            status = (pre ++ part ++ post)%string /\
            Str.same_ignoring_case part x = true)
  /\ (r = Returns (true, None) \/ r = Returns (false, Some "not_member"%string))
  /\ (forall tg' w' status',
        outcome (member_status tg' chat_id user_id) = Returns status' ->
        Str.same_ignoring_case status' status = true ->
        fst (check_user_membership tg' chat_id user_id w') = r).
Proof.
  intros Hst r. subst r. rewrite (verdict_by_lower tg chat_id user_id w status Hst).
  repeat split.
  - intros x Hx Hsame. apply StrFacts.same_ignoring_case_iff in Hsame. rewrite Hsame.
    destruct Hx as [<- | [<- | [<- | [<- | []]]]]; vm_compute; reflexivity.
  - intros x Hx Hsame. apply StrFacts.same_ignoring_case_iff in Hsame. rewrite Hsame.
    destruct Hx as [<- | [<- | [<- | []]]]; vm_compute; reflexivity.
  - destruct (any_allowed_in (Str.lower status)) eqn:E; [ | discriminate ].
    intros _. apply any_allowed_in_iff in E. destruct E as (x & Hin & Hc).
    apply StrFacts.contains_iff in Hc. destruct Hc as (pre' & post' & Hc).
    destruct (StrFacts.lower_app_inv _ _ _ Hc) as (pre & rest & -> & _ & Hrest).
    destruct (StrFacts.lower_app_inv _ _ _ Hrest) as (part & post & -> & Hpart & _).
    exists x, pre, part, post. repeat split; [ exact Hin | ].
    apply StrFacts.same_ignoring_case_iff. rewrite Hpart.
    symmetry. apply allowed_is_lower, Hin.
  - intros (x & pre & part & post & Hin & -> & Hsame).
    apply StrFacts.same_ignoring_case_iff in Hsame.
    rewrite (allowed_is_lower x Hin) in Hsame.
    assert (E : any_allowed_in (Str.lower (pre ++ part ++ post)) = true).
    { apply any_allowed_in_iff. exists x. split; [ exact Hin | ].
      apply StrFacts.contains_iff. exists (Str.lower pre), (Str.lower post).
      rewrite !StrFacts.lower_app, Hsame. reflexivity. }
    rewrite E. reflexivity.
  - destruct (any_allowed_in (Str.lower status)); [ left | right ]; reflexivity.
  - intros tg' w' status' Hst' Hsame.
    apply StrFacts.same_ignoring_case_iff in Hsame.
    rewrite (verdict_by_lower tg' chat_id user_id w' status' Hst'), Hsame. reflexivity.
Qed.

Lemma status_mapping_witness :
  outcome (member_status (Toy.telegram (Returns "ADMINISTRATOR"%string) (Returns []))
             "@legendxexpert" 1)
  = Returns "ADMINISTRATOR"%string
  /\ fst (check_user_membership (Toy.telegram (Returns "ADMINISTRATOR"%string) (Returns []))
            "@legendxexpert" 1 (Toy.world ∅ 1000))
     = Returns (true, None).
Proof.
  split; [ reflexivity | ].
  exact (proj1 (status_mapping (Toy.telegram (Returns "ADMINISTRATOR"%string) (Returns []))
                  "@legendxexpert" 1 (Toy.world ∅ 1000) "ADMINISTRATOR" eq_refl)
               "administrator"%string (or_introl eq_refl) eq_refl).
Defined.

(** C5, as the code has it.  [check_user_membership] makes one request,
    [get_chat_member], and no other, and leaves the cache alone.  When the
    request returns, so does the function; when it raises an instance of
    [Exception], the function returns [(False, "error")], which the callers
    read as not verified; when it raises another [BaseException] (the
    [asyncio.CancelledError] of a cancelled handler, for one), the clause
    [except Exception] does not catch it and the function raises it. *)
Theorem check_user_membership_catches_exceptions (tg : Telegram) (chat_id : string)
    (user_id : Z) (w : World) :
  calls (snd (check_user_membership tg chat_id user_id w))
  = calls w ++ [GetChatMember chat_id user_id]
  /\ verified_users (snd (check_user_membership tg chat_id user_id w)) = verified_users w
  /\ match outcome (member_status tg chat_id user_id) with
     | Returns _ =>
         exists ok reason,
           fst (check_user_membership tg chat_id user_id w) = Returns (ok, reason)
     | Raises e =>
         fst (check_user_membership tg chat_id user_id w)
         = if is_Exception e then Returns (false, Some "error"%string) else Raises e
     end.
Proof.
  rewrite check_user_membership_run. cbn [fst snd]. repeat split.
  destruct (outcome (member_status tg chat_id user_id)) as [status | e].
  - destruct (any_allowed_in (Str.lower status)); eexists _, _; reflexivity.
  - reflexivity.
Qed.

(** C5 as the specification states it fails when the request is cancelled:
    [get_chat_member] raises [asyncio.CancelledError], a [BaseException]
    that is no [Exception], and [check_user_membership] raises it. *)
Lemma check_user_membership_raises_cancellation :
  fst (check_user_membership
         (Toy.telegram (Raises (BaseException "CancelledError")) (Returns []))
         "@legendxexpert" 1 (Toy.world ∅ 1000))
  = Raises (BaseException "CancelledError").
Proof. rewrite check_user_membership_run. reflexivity. Qed.

End MembershipClaims.

(* ================================================================== *)
(** * The verification cache *)
(* ================================================================== *)

Module CacheFacts.

(** What [is_verified] does, by the entry of the user. *)
Lemma is_verified_run (user_id : Z) (w : World) :
  is_verified user_id w
  = match verified_users w !! user_id with
    | None => (Returns false, w)
    | Some exp =>
        if exp =? 0 then (Returns false, w)
        else if exp <? clock w then (Returns false, without_user user_id w)
        else (Returns true, w)
    end.
Proof.
  unfold is_verified. proc_unfold.
  destruct (verified_users w !! user_id) as [exp | ] eqn:E; cbn; [ | reflexivity ].
  destruct (exp =? 0); cbn; [ reflexivity | ].
  destruct (exp <? clock w); [ | reflexivity ].
  rewrite E. reflexivity.
Qed.

(** [is_verified] never raises: the only statement that could, the [del],
    runs on a key that was just found. *)
Lemma is_verified_returns (user_id : Z) (w : World) :
  exists b, fst (is_verified user_id w) = Returns b.
Proof.
  rewrite is_verified_run.
  destruct (verified_users w !! user_id) as [exp | ]; [ | eexists; reflexivity ].
  destruct (exp =? 0); [ eexists; reflexivity | ].
  destruct (exp <? clock w); eexists; reflexivity.
Qed.

(** All that [is_verified] may do to the state is to drop the entry of the
    user, and only an entry that lies in the past. *)
Lemma is_verified_state (user_id : Z) (w : World) :
  snd (is_verified user_id w) = w
  \/ (snd (is_verified user_id w) = without_user user_id w
      /\ exists exp, verified_users w !! user_id = Some exp /\ exp < clock w).
Proof.
  rewrite is_verified_run.
  destruct (verified_users w !! user_id) as [exp | ]; [ | left; reflexivity ].
  destruct (exp =? 0); [ left; reflexivity | ].
  destruct (Z.ltb_spec exp (clock w)); [ right | left; reflexivity ].
  split; [ reflexivity | ]. exists exp. split; [ reflexivity | assumption ].
Qed.

(** The complete reading of the answer, zero expiry included. *)
Lemma is_verified_true_iff (user_id : Z) (w : World) :
  fst (is_verified user_id w) = Returns true
  <-> exists exp, verified_users w !! user_id = Some exp /\ exp <> 0 /\ clock w <= exp.
Proof.
  rewrite is_verified_run.
  destruct (verified_users w !! user_id) as [exp | ].
  - destruct (Z.eqb_spec exp 0) as [E0 | E0].
    + split; [ discriminate | intros (x & [= <-] & Hx & _); contradiction ].
    + destruct (Z.ltb_spec exp (clock w)) as [Hlt | Hge].
      * split; [ discriminate | intros (x & [= <-] & _ & Hx); lia ].
      * split; [ intros _; exists exp; auto | reflexivity ].
  - split; [ discriminate | intros (x & Hx & _); discriminate ].
Qed.

Lemma mark_verified_run (user_id ttl : Z) (w : World) :
  mark_verified user_id ttl w
  = (Returns tt,
     {| verified_users := <[user_id := clock w + ttl]> (verified_users w);
        clock := clock w;
        calls := calls w |}).
Proof. reflexivity. Qed.

(** Before any entry is written, nobody is verified. *)
Lemma is_verified_empty (user_id : Z) (w : World) :
  verified_users w = ∅ -> is_verified user_id w = (Returns false, w).
Proof. intros E. rewrite is_verified_run, E, lookup_empty. reflexivity. Qed.

(** Right after [mark_verified], with a positive clock and duration, the user
    is verified. *)
Lemma is_verified_after_mark (user_id ttl : Z) (w : World) :
  0 < clock w -> 0 < ttl ->
  fst (is_verified user_id (snd (mark_verified user_id ttl w))) = Returns true.
Proof.
  intros Hc Ht. rewrite mark_verified_run. cbn [snd].
  apply is_verified_true_iff. cbn. rewrite lookup_insert_eq.
  exists (clock w + ttl). repeat split; lia.
Qed.

(** Why expiry is best read off the stored value: on a reading with a
    fraction the binary64 sum [time.time() + VERIFIED_TTL] can lie after the
    exact one, here for a reading just below [2^31] seconds. *)
Example stored_expiry_can_round_up :
  let now := (2147483647 + (3 # 4194304))%Q in
  (now + 43200 < Float.fl (now + 43200))%Q.
Proof. vm_compute. reflexivity. Qed.

(** The cache after [is_verified]: the entry of the user is gone when its
    expiry is not zero and lies before the clock, and nothing else changes. *)
Lemma is_verified_cache (user_id : Z) (w : World) :
  verified_users (snd (is_verified user_id w))
  = match verified_users w !! user_id with
    | Some exp =>
        if negb (exp =? 0) && (exp <? clock w)
        then delete user_id (verified_users w)
        else verified_users w
    | None => verified_users w
    end.
Proof.
  rewrite is_verified_run.
  destruct (verified_users w !! user_id) as [exp | ]; [ | reflexivity ].
  destruct (exp =? 0); [ reflexivity | ].
  destruct (exp <? clock w); reflexivity.
Qed.

End CacheFacts.

Module CacheClaims.
Import CacheFacts.




End CacheClaims.

(* ================================================================== *)
(** * The photo handler *)
(* ================================================================== *)

Module HandlerFacts.
Import MembershipFacts CacheFacts.

Section Handler.
Context `{Pillow} (cfg : Config) (tg : Telegram).

(** The path through [photo_handler] of a submission that is turned away:
    the cache lookup, one membership request, the join prompt. *)
Lemma photo_handler_rejected (update : Update) (w : World) :
  let user_id := effective_user_id update in
  let text := "❌ Please join the channel first and verify."%string in
  let markup := Some (build_join_keyboard cfg) in
  let asked := member_status tg (CHANNEL_USERNAME cfg) user_id in
  fst (is_verified user_id w) = Returns false ->
  match outcome asked with
  | Returns status => any_allowed_in (Str.lower status) = false
  | Raises e => is_Exception e = true
  end ->
  photo_handler cfg tg update w
  = (match outcome (sent_text tg text markup) with
     | Returns _ => Returns tt
     | Raises e => Raises e
     end,
     after_call (ReplyText text markup) (sent_text tg text markup)
       (after_call (GetChatMember (CHANNEL_USERNAME cfg) user_id) asked
          (snd (is_verified user_id w)))).
Proof.
  intros user_id text markup asked Hv Hm.
  unfold photo_handler. fold user_id. unfold mbind, proc_bind.
  destruct (is_verified user_id w) as [r w1]. cbn [fst snd] in *. subst r.
  cbn [negb]. rewrite check_user_membership_run. fold asked.
  assert (E : match outcome asked with
              | Returns status =>
                  Returns (if any_allowed_in (Str.lower status)
                           then (true, None)
                           else (false, Some "not_member"%string))
              | Raises e =>
                  if is_Exception e
                  then Returns (false, Some "error"%string)
                  else Raises e
              end = Returns (false, match outcome asked with
                                    | Returns _ => Some "not_member"%string
                                    | Raises _ => Some "error"%string
                                    end)).
  { destruct (outcome asked); rewrite Hm; reflexivity. }
  rewrite E. cbn [negb]. fold text markup.
  proc_unfold. destruct (outcome (sent_text tg text markup)); reflexivity.
Qed.

(** The path of a submission whose membership request raises what
    [except Exception] does not catch: the exception leaves the handler. *)
Lemma photo_handler_cancelled (update : Update) (w : World) (e : exc) :
  let user_id := effective_user_id update in
  let asked := member_status tg (CHANNEL_USERNAME cfg) user_id in
  fst (is_verified user_id w) = Returns false ->
  outcome asked = Raises e ->
  is_Exception e = false ->
  photo_handler cfg tg update w
  = (Raises e,
     after_call (GetChatMember (CHANNEL_USERNAME cfg) user_id) asked
       (snd (is_verified user_id w))).
Proof.
  intros user_id asked Hv Hm He.
  unfold photo_handler. fold user_id. unfold mbind, proc_bind.
  destruct (is_verified user_id w) as [r w1]. cbn [fst snd] in *. subst r.
  cbn [negb]. rewrite check_user_membership_run. fold asked.
  rewrite Hm, He. reflexivity.
Qed.

(** The path of a submission by a verified user up to the pipeline, when the
    pipeline raises: the exception leaves the handler. *)
Lemma photo_handler_pipeline_raises (update : Update) (w : World)
    (photo tg_file : string) (file_bytes : bytes) (msg : Z) (e : exc) :
  let text := "⏳ Enhancing your photo, please wait..."%string in
  is_verified (effective_user_id update) w = (Returns true, w) ->
  last (message_photo update) = Some photo ->
  outcome (file_of_id tg photo) = Returns tg_file ->
  outcome (file_content tg tg_file) = Returns file_bytes ->
  outcome (sent_text tg text None) = Returns msg ->
  enhance_image_bytes_sync file_bytes = Raises e ->
  photo_handler cfg tg update w
  = (Raises e,
     after_call (ReplyText text None) (sent_text tg text None)
       (after_call (DownloadAsBytearray tg_file) (file_content tg tg_file)
          (after_call (GetFile photo) (file_of_id tg photo) w))).
Proof.
  intros text Hv Hlast Hfile Hcontent Hsent Hraise.
  unfold photo_handler. unfold mbind at 1, proc_bind at 1. rewrite Hv.
  cbn [negb]. rewrite Hlast. fold text.
  unfold mbind, proc_bind, mret, proc_ret, await.
  rewrite Hfile. cbv beta iota. rewrite Hcontent. cbv beta iota.
  rewrite Hsent. cbn [negb]. cbv beta iota.
  rewrite PipelineFacts.enhance_image_bytes_run, Hraise. reflexivity.
Qed.

End Handler.
End HandlerFacts.

Module HandlerClaims.
Import MembershipFacts CacheFacts HandlerFacts.

(** C1, on the code: a verified user sends a photo whose bytes make the
    pipeline raise (bytes that are no image, for one).  [photo_handler] has
    no handler around [enhance_image_bytes], and the [try] inside
    [enhance_image_bytes] runs into the same exception on its last line, so
    the exception leaves [photo_handler]; the requests made are the two of
    the download and the placeholder message, which is neither edited nor
    deleted. *)
Theorem pipeline_exception_escapes_handler `{Pillow} (cfg : Config) (tg : Telegram)
    (update : Update) (w : World)
    (photo tg_file : string) (file_bytes : bytes) (msg : Z) (e : exc) :
  is_verified (effective_user_id update) w = (Returns true, w) ->
  last (message_photo update) = Some photo ->
  outcome (file_of_id tg photo) = Returns tg_file ->
  outcome (file_content tg tg_file) = Returns file_bytes ->
  outcome (sent_text tg "⏳ Enhancing your photo, please wait..." None) = Returns msg ->
  enhance_image_bytes_sync file_bytes = Raises e ->
  fst (photo_handler cfg tg update w) = Raises e
  /\ calls (snd (photo_handler cfg tg update w))
     = calls w ++ [ GetFile photo;
                    DownloadAsBytearray tg_file;
                    ReplyText "⏳ Enhancing your photo, please wait..." None ].
Proof.
  intros Hv Hlast Hfile Hcontent Hsent Hraise.
  rewrite (photo_handler_pipeline_raises cfg tg update w photo tg_file file_bytes msg e)
    by assumption.
  split; [ reflexivity | ].
  cbn. rewrite <- !app_assoc. reflexivity.
Qed.

Lemma pipeline_exception_escapes_handler_witness :
  let tg := Toy.telegram (Returns "member"%string) (Returns []) in
  let w := Toy.world {[ 1 := 5000 ]} 1000 in
  fst (@photo_handler Toy.pillow (Toy.config None) tg (Toy.update 1) w)
  = Raises (Exception "UnidentifiedImageError")
  /\ calls (snd (@photo_handler Toy.pillow (Toy.config None) tg (Toy.update 1) w))
     = [ GetFile "large";
         DownloadAsBytearray "large";
         ReplyText "⏳ Enhancing your photo, please wait..." None ].
Proof.
  cbn zeta.
  refine (@pipeline_exception_escapes_handler Toy.pillow (Toy.config None)
            (Toy.telegram (Returns "member"%string) (Returns []))
            (Toy.update 1) (Toy.world {[ 1 := 5000 ]} 1000)
            "large" "large" [] 7 (Exception "UnidentifiedImageError")
            _ eq_refl eq_refl eq_refl eq_refl eq_refl).
  rewrite is_verified_run. reflexivity.
Defined.

(** C9, as the code has it.  A user for whom [is_verified] answers [False]
    and whose membership check fails with an [Exception] or finds no
    membership is sent the join prompt and nothing else is requested: no file
    is fetched and no photo is sent.  The cache afterwards is the cache
    before, but that the entry of the user is removed when its expiry is not
    zero and lies strictly before the clock, as [is_verified] does on every
    lookup; no entry is added or modified and no entry of another user is
    removed. *)
Theorem rejected_submission `{Pillow} (cfg : Config) (tg : Telegram)
    (update : Update) (w : World) :
  let user_id := effective_user_id update in
  let text := "❌ Please join the channel first and verify."%string in
  let markup := Some (build_join_keyboard cfg) in
  fst (is_verified user_id w) = Returns false ->
  match outcome (member_status tg (CHANNEL_USERNAME cfg) user_id) with
  | Returns status => any_allowed_in (Str.lower status) = false
  | Raises e => is_Exception e = true
  end ->
  let w' := snd (photo_handler cfg tg update w) in
  calls w' = calls w ++ [ GetChatMember (CHANNEL_USERNAME cfg) user_id;
                          ReplyText text markup ]
  /\ fst (photo_handler cfg tg update w)
     = match outcome (sent_text tg text markup) with
       | Returns _ => Returns tt
       | Raises e => Raises e
       end
  /\ verified_users w'
     = match verified_users w !! user_id with
       | Some exp =>
           if negb (exp =? 0) && (exp <? clock w)
           then delete user_id (verified_users w)
           else verified_users w
       | None => verified_users w
       end
  /\ (forall v, v <> user_id -> verified_users w' !! v = verified_users w !! v).
Proof.
  intros user_id text markup Hv Hm w'. subst w'.
  rewrite (photo_handler_rejected cfg tg update w Hv Hm). fold user_id text markup.
  cbn [fst snd]. unfold after_call, later. cbn [calls verified_users].
  assert (Hcalls : calls (snd (is_verified user_id w)) = calls w).
  { destruct (is_verified_state user_id w) as [E | (E & _)]; rewrite E; reflexivity. }
  rewrite Hcalls, is_verified_cache. repeat split.
  - rewrite <- app_assoc. reflexivity.
  - intros v Hne.
    destruct (verified_users w !! user_id) as [exp | ]; [ | reflexivity ].
    destruct (negb (exp =? 0) && (exp <? clock w)); [ | reflexivity ].
    apply lookup_delete_ne. congruence.
Qed.

Lemma rejected_submission_witness :
  let tg := Toy.telegram (Returns "left"%string) (Returns []) in
  let w := Toy.world {[ 1 := 100; 2 := 5000 ]} 1000 in
  verified_users (snd (@photo_handler Toy.pillow (Toy.config None) tg (Toy.update 1) w))
  = match verified_users w !! 1 with
    | Some exp =>
        if negb (exp =? 0) && (exp <? clock w)
        then delete 1 (verified_users w)
        else verified_users w
    | None => verified_users w
    end.
Proof.
  cbn zeta.
  refine (proj1 (proj2 (proj2 (@rejected_submission Toy.pillow (Toy.config None)
                   (Toy.telegram (Returns "left"%string) (Returns []))
                   (Toy.update 1) (Toy.world {[ 1 := 100; 2 := 5000 ]} 1000) _ _)))).
  - rewrite is_verified_run. reflexivity.
  - vm_compute. reflexivity.
Defined.

(** C9 as the specification states it fails for a user whose entry lies in
    the past: the lookup that finds the user not verified removes the entry,
    so the rejected submission does change the cache. *)
Lemma rejected_submission_evicts :
  let tg := Toy.telegram (Returns "left"%string) (Returns []) in
  let w := Toy.world {[ 1 := 100 ]} 200 in
  fst (is_verified 1 w) = Returns false
  /\ fst (check_user_membership tg "@legendxexpert" 1 w)
     = Returns (false, Some "not_member"%string)
  /\ verified_users w !! 1 = Some 100
  /\ verified_users (snd (@photo_handler Toy.pillow (Toy.config None) tg (Toy.update 1) w)) !! 1
     = None.
Proof.
  cbn zeta. split; [ rewrite is_verified_run; reflexivity | ].
  split; [ rewrite check_user_membership_run; vm_compute; reflexivity | ].
  split; [ reflexivity | ].
  rewrite (@photo_handler_rejected Toy.pillow (Toy.config None)
             (Toy.telegram (Returns "left"%string) (Returns []))
             (Toy.update 1) (Toy.world {[ 1 := 100 ]} 200)).
  - rewrite is_verified_run. reflexivity.
  - rewrite is_verified_run. reflexivity.
  - vm_compute. reflexivity.
Qed.

End HandlerClaims.

(* ================================================================== *)
(** * The paths through the handlers *)
(* ================================================================== *)

Module HandlerPaths.
Import MembershipFacts CacheFacts.

Section Paths.
Context `{Pillow} (cfg : Config) (tg : Telegram).

(** [photo_handler] is the membership gate followed by
    [fetch_enhance_deliver]. *)
Lemma photo_handler_gate (update : Update) :
  photo_handler cfg tg update
  = (let user_id := effective_user_id update in
     verified ← is_verified user_id;
     go_on ←
       (if negb verified
        then
          '(ok, reason) ← check_user_membership tg (CHANNEL_USERNAME cfg) user_id;
          if negb ok
          then
            let text := "❌ Please join the channel first and verify."%string in
            let markup := Some (build_join_keyboard cfg) in
            await (ReplyText text markup) (sent_text tg text markup);;
            mret false
          else
            mark_verified user_id VERIFIED_TTL;;
            mret true
        else mret true);
     if negb go_on then mret tt else fetch_enhance_deliver cfg tg update).
Proof. reflexivity. Qed.

(** What [fetch_enhance_deliver] does, by the answers of the platform and of
    the pipeline. *)
Lemma fetch_enhance_deliver_run (update : Update) (w : World) :
  fetch_enhance_deliver cfg tg update w
  = match last (message_photo update) with
    | None => (Raises (Exception "IndexError"), w)
    | Some photo =>
        let w1 := after_call (GetFile photo) (file_of_id tg photo) w in
        match outcome (file_of_id tg photo) with
        | Raises e => (Raises e, w1)
        | Returns tg_file =>
            let w2 := after_call (DownloadAsBytearray tg_file) (file_content tg tg_file) w1 in
            match outcome (file_content tg tg_file) with
            | Raises e => (Raises e, w2)
            | Returns file_bytes =>
                let text := "⏳ Enhancing your photo, please wait..."%string in
                let w3 := after_call (ReplyText text None) (sent_text tg text None) w2 in
                match outcome (sent_text tg text None) with
                | Raises e => (Raises e, w3)
                | Returns msg =>
                    match enhance_image_bytes_sync file_bytes with
                    | Raises e => (Raises e, w3)
                    | Returns enhanced =>
                        if bytes_truthy enhanced
                        then
                          let caption := "✨ Enhanced by LEGEND EXPERT"%string in
                          let sent := sent_photo tg (effective_chat_id update) enhanced caption in
                          let w4 := after_call (SendPhoto (effective_chat_id update) enhanced caption)
                                      sent w3 in
                          match outcome sent with
                          | Raises e => (Raises e, w4)
                          | Returns _ =>
                              (outcome (deleted_message tg msg),
                               after_call (DeleteMessage msg) (deleted_message tg msg) w4)
                          end
                        else
                          let failed := "❌ Enhancement failed."%string in
                          (outcome (edited_text tg msg failed),
                           after_call (EditText msg failed) (edited_text tg msg failed) w3)
                    end
                end
            end
        end
    end.
Proof.
  unfold fetch_enhance_deliver.
  destruct (last (message_photo update)) as [photo | ]; [ | reflexivity ].
  unfold mbind, proc_bind, mret, proc_ret, await. cbv zeta.
  destruct (outcome (file_of_id tg photo)) as [tg_file | e]; [ | reflexivity ].
  destruct (outcome (file_content tg tg_file)) as [file_bytes | e]; [ | reflexivity ].
  destruct (outcome (sent_text tg _ None)) as [msg | e]; [ | reflexivity ].
  rewrite PipelineFacts.enhance_image_bytes_run.
  destruct (enhance_image_bytes_sync file_bytes) as [enhanced | e]; [ | reflexivity ].
  destruct (bytes_truthy enhanced); cbn [negb]; [ | reflexivity ].
  destruct (outcome (sent_photo tg _ enhanced _)); reflexivity.
Qed.

(** The handler of a user whom the cache knows: no membership request, the
    state is handed on as it is. *)
Lemma photo_handler_cached (update : Update) (w : World) :
  fst (is_verified (effective_user_id update) w) = Returns true ->
  photo_handler cfg tg update w = fetch_enhance_deliver cfg tg update w.
Proof.
  intros Hv. rewrite photo_handler_gate. cbv zeta.
  unfold mbind at 1, proc_bind at 1.
  pose proof (is_verified_run (effective_user_id update) w) as Hrun.
  destruct (verified_users w !! effective_user_id update) as [exp | ];
    [ | rewrite Hrun in Hv; discriminate ].
  destruct (exp =? 0); [ rewrite Hrun in Hv; discriminate | ].
  destruct (exp <? clock w); [ rewrite Hrun in Hv; discriminate | ].
  rewrite Hrun. cbn [negb]. reflexivity.
Qed.

(** The handler of a user whom the cache does not know and whom the channel
    does: the entry is written at the time the membership answer arrives and
    the handler goes on from there. *)
Lemma photo_handler_admitted (update : Update) (w : World) (status : string) :
  let user_id := effective_user_id update in
  let asked := member_status tg (CHANNEL_USERNAME cfg) user_id in
  fst (is_verified user_id w) = Returns false ->
  outcome asked = Returns status ->
  any_allowed_in (Str.lower status) = true ->
  photo_handler cfg tg update w
  = fetch_enhance_deliver cfg tg update
      (snd (mark_verified user_id VERIFIED_TTL
              (after_call (GetChatMember (CHANNEL_USERNAME cfg) user_id) asked
                 (snd (is_verified user_id w))))).
Proof.
  intros user_id asked Hv Hst Hok. rewrite photo_handler_gate. cbv zeta.
  fold user_id. unfold mbind at 1, proc_bind at 1.
  destruct (is_verified user_id w) as [r w1]. cbn [fst snd] in *. subst r.
  cbn [negb]. unfold mbind at 1 2, proc_bind at 1 2.
  rewrite check_user_membership_run. fold asked. rewrite Hst, Hok. cbn [negb].
  unfold mbind at 1, proc_bind at 1. rewrite mark_verified_run. reflexivity.
Qed.

(** No step of [fetch_enhance_deliver] writes to the cache. *)
Lemma fetch_enhance_deliver_cache (update : Update) (w : World) :
  verified_users (snd (fetch_enhance_deliver cfg tg update w)) = verified_users w.
Proof.
  rewrite fetch_enhance_deliver_run.
  destruct (last (message_photo update)) as [photo | ]; [ | reflexivity ].
  cbv zeta.
  destruct (outcome (file_of_id tg photo)) as [tg_file | e]; [ | reflexivity ].
  destruct (outcome (file_content tg tg_file)) as [file_bytes | e]; [ | reflexivity ].
  destruct (outcome (sent_text tg _ None)) as [msg | e]; [ | reflexivity ].
  destruct (enhance_image_bytes_sync file_bytes) as [enhanced | e]; [ | reflexivity ].
  destruct (bytes_truthy enhanced); [ | reflexivity ].
  destruct (outcome (sent_photo tg _ enhanced _)); reflexivity.
Qed.

(** The requests of [fetch_enhance_deliver] are appended to the log, and the
    placeholder is edited only when the pipeline has returned empty bytes. *)
Lemma fetch_enhance_deliver_edits (update : Update) (w : World) :
  exists cs,
    calls (snd (fetch_enhance_deliver cfg tg update w)) = calls w ++ cs
    /\ (forall m t, In (EditText m t) cs ->
          exists file_bytes, enhance_image_bytes_sync file_bytes = Returns []).
Proof.
  rewrite fetch_enhance_deliver_run.
  destruct (last (message_photo update)) as [photo | ].
  2:{ exists []. split; [ cbn; rewrite app_nil_r; reflexivity | intros m t [] ]. }
  cbv zeta.
  destruct (outcome (file_of_id tg photo)) as [tg_file | e].
  2:{ eexists. split; [ reflexivity | ]. cbn. intros m t Hin. intuition discriminate. }
  destruct (outcome (file_content tg tg_file)) as [file_bytes | e].
  2:{ eexists. split; [ cbn; rewrite <- !app_assoc; reflexivity | ].
      cbn. intros m t Hin. intuition discriminate. }
  destruct (outcome (sent_text tg _ None)) as [msg | e].
  2:{ eexists. split; [ cbn; rewrite <- !app_assoc; reflexivity | ].
      cbn. intros m t Hin. intuition discriminate. }
  destruct (enhance_image_bytes_sync file_bytes) as [enhanced | e] eqn:Hrun.
  2:{ eexists. split; [ cbn; rewrite <- !app_assoc; reflexivity | ].
      cbn. intros m t Hin. intuition discriminate. }
  destruct enhanced as [ | b0 enhanced ]; cbn [bytes_truthy].
  { eexists. split; [ cbn; rewrite <- !app_assoc; reflexivity | ].
    intros m t _. exists file_bytes. exact Hrun. }
  destruct (outcome (sent_photo tg _ _ _));
    (eexists; split; [ cbn; rewrite <- !app_assoc; reflexivity | ];
     cbn; intros m t Hin; intuition discriminate).
Qed.

(** [is_verified] leaves the log of requests alone. *)
Lemma is_verified_calls (user_id : Z) (w : World) :
  calls (snd (is_verified user_id w)) = calls w.
Proof.
  destruct (is_verified_state user_id w) as [E | (E & _)]; rewrite E; reflexivity.
Qed.

(** What [callback_query_handler] does, by the answers of the platform. *)
Lemma callback_query_handler_run (update : Update) (w : World) :
  callback_query_handler cfg tg update w
  = let user_id := effective_user_id update in
    let asked := member_status tg (CHANNEL_USERNAME cfg) user_id in
    let w1 := after_call AnswerCallbackQuery (answered_query tg) w in
    let w2 := after_call (GetChatMember (CHANNEL_USERNAME cfg) user_id) asked w1 in
    let welcome := "✅ Verified!
Send a photo and LEGEND EXPERT will enhance it ✨"%string in
    let prompt := "❌ Please join the channel first."%string in
    let refused :=
      (outcome (edited_message_text tg prompt),
       after_call (EditMessageText prompt) (edited_message_text tg prompt) w2) in
    match outcome (answered_query tg) with
    | Raises e => (Raises e, w1)
    | Returns _ =>
        match outcome asked with
        | Returns status =>
            if any_allowed_in (Str.lower status)
            then
              (outcome (edited_message_text tg welcome),
               after_call (EditMessageText welcome) (edited_message_text tg welcome)
                 (snd (mark_verified user_id VERIFIED_TTL w2)))
            else refused
        | Raises e => if is_Exception e then refused else (Raises e, w2)
        end
    end.
Proof.
  unfold callback_query_handler. cbv zeta.
  unfold mbind at 1, proc_bind at 1. unfold await at 1.
  destruct (outcome (answered_query tg)) as [ [] | e ]; [ | reflexivity ].
  unfold mbind at 1, proc_bind at 1. rewrite check_user_membership_run.
  destruct (outcome (member_status tg (CHANNEL_USERNAME cfg) (effective_user_id update)))
    as [status | e].
  - destruct (any_allowed_in (Str.lower status)); reflexivity.
  - destruct (is_Exception e); reflexivity.
Qed.

(** The cache after [callback_query_handler]. *)
Lemma callback_cache_unfolded (update : Update) (w : World) :
  verified_users (snd (callback_query_handler cfg tg update w))
  = match outcome (answered_query tg),
          outcome (member_status tg (CHANNEL_USERNAME cfg) (effective_user_id update)) with
    | Returns _, Returns status =>
        if any_allowed_in (Str.lower status)
        then <[ effective_user_id update :=
                  clock w + elapsed (answered_query tg)
                  + elapsed (member_status tg (CHANNEL_USERNAME cfg) (effective_user_id update))
                  + 12 * 3600 ]>
               (verified_users w)
        else verified_users w
    | _, _ => verified_users w
    end.
Proof.
  rewrite callback_query_handler_run. cbv zeta.
  destruct (outcome (answered_query tg)) as [ [] | e ]; [ | reflexivity ].
  destruct (outcome (member_status tg _ _)) as [status | e].
  - destruct (any_allowed_in (Str.lower status)); reflexivity.
  - destruct (is_Exception e); reflexivity.
Qed.

End Paths.
End HandlerPaths.

Module HandlerMore.
Import MembershipFacts CacheFacts HandlerPaths.

(** A cached user sends a photo and every step succeeds: the largest size of
    the photo is fetched, the placeholder is sent, the enhanced photo goes to
    the chat of the update and the placeholder is deleted, in this order and
    with no membership request; the cache stays as it is. *)
Theorem cached_user_photo_delivered `{Pillow} (cfg : Config) (tg : Telegram)
    (update : Update) (w : World)
    (photo tg_file : string) (file_bytes enhanced : bytes) (msg : Z) :
  let text := "⏳ Enhancing your photo, please wait..."%string in
  let caption := "✨ Enhanced by LEGEND EXPERT"%string in
  let chat_id := effective_chat_id update in
  fst (is_verified (effective_user_id update) w) = Returns true ->
  last (message_photo update) = Some photo ->
  outcome (file_of_id tg photo) = Returns tg_file ->
  outcome (file_content tg tg_file) = Returns file_bytes ->
  outcome (sent_text tg text None) = Returns msg ->
  enhance_image_bytes_sync file_bytes = Returns enhanced ->
  bytes_truthy enhanced = true ->
  outcome (sent_photo tg chat_id enhanced caption) = Returns tt ->
  fst (photo_handler cfg tg update w) = outcome (deleted_message tg msg)
  /\ calls (snd (photo_handler cfg tg update w))
     = calls w ++ [ GetFile photo;
                    DownloadAsBytearray tg_file;
                    ReplyText text None;
                    SendPhoto chat_id enhanced caption;
                    DeleteMessage msg ]
  /\ verified_users (snd (photo_handler cfg tg update w)) = verified_users w.
Proof.
  intros text caption chat_id Hv Hlast Hfile Hcontent Hsent Hrun Hne Hphoto.
  rewrite (photo_handler_cached cfg tg update w Hv), fetch_enhance_deliver_run.
  rewrite Hlast. cbv zeta. fold text caption chat_id.
  rewrite Hfile, Hcontent, Hsent, Hrun, Hne, Hphoto.
  cbn. rewrite <- !app_assoc. repeat split.
Qed.

Lemma cached_user_photo_delivered_witness :
  let tg := Toy.telegram (Returns "member"%string) (Returns (Toy.encode 4000 3000)) in
  let w := Toy.world {[ 1 := 5000 ]} 1000 in
  calls (snd (@photo_handler Toy.pillow (Toy.config None) tg (Toy.update 1) w))
  = [ GetFile "large";
      DownloadAsBytearray "large";
      ReplyText "⏳ Enhancing your photo, please wait..." None;
      SendPhoto 500 (Toy.encode 2000 1500) "✨ Enhanced by LEGEND EXPERT";
      DeleteMessage 7 ].
Proof.
  cbn zeta.
  refine (proj1 (proj2 (@cached_user_photo_delivered Toy.pillow (Toy.config None)
            (Toy.telegram (Returns "member"%string) (Returns (Toy.encode 4000 3000)))
            (Toy.update 1) (Toy.world {[ 1 := 5000 ]} 1000)
            "large" "large" (Toy.encode 4000 3000) (Toy.encode 2000 1500) 7
            _ eq_refl eq_refl eq_refl eq_refl _ eq_refl eq_refl))).
  - rewrite is_verified_run. reflexivity.
  - vm_compute. reflexivity.
Defined.

(** A user whom the cache does not know and whose membership check succeeds
    is entered in the cache with the expiry 12 hours after the moment the
    answer arrived, and stays entered whatever the rest of the handler does
    (a failed download or a failed enhancement does not undo it); the first
    request of the handler is the membership request. *)
Theorem admitted_user_is_cached `{Pillow} (cfg : Config) (tg : Telegram)
    (update : Update) (w : World) (status : string) :
  let user_id := effective_user_id update in
  let asked := member_status tg (CHANNEL_USERNAME cfg) user_id in
  fst (is_verified user_id w) = Returns false ->
  outcome asked = Returns status ->
  any_allowed_in (Str.lower status) = true ->
  verified_users (snd (photo_handler cfg tg update w))
  = <[ user_id := clock w + elapsed asked + 12 * 3600 ]> (verified_users w)
  /\ exists cs, calls (snd (photo_handler cfg tg update w))
                = calls w ++ GetChatMember (CHANNEL_USERNAME cfg) user_id :: cs.
Proof.
  intros user_id asked Hv Hst Hok.
  rewrite (photo_handler_admitted cfg tg update w status Hv Hst Hok).
  fold user_id asked. split.
  - rewrite fetch_enhance_deliver_cache, mark_verified_run. cbn [snd verified_users clock].
    unfold after_call, later. cbn [verified_users clock].
    destruct (is_verified_state user_id w) as [E | (E & _)]; rewrite E.
    + reflexivity.
    + cbn [without_user verified_users clock]. apply insert_delete_eq.
  - rewrite fetch_enhance_deliver_run, mark_verified_run. cbn [snd].
    assert (Hc : calls (snd (is_verified user_id w)) = calls w).
    { destruct (is_verified_state user_id w) as [E | (E & _)]; rewrite E; reflexivity. }
    destruct (last (message_photo update)) as [photo | ].
    2:{ exists []. cbn. rewrite Hc. reflexivity. }
    cbv zeta.
    destruct (outcome (file_of_id tg photo)) as [tg_file | e].
    2:{ eexists. cbn. rewrite Hc, <- !app_assoc. reflexivity. }
    destruct (outcome (file_content tg tg_file)) as [file_bytes | e].
    2:{ eexists. cbn. rewrite Hc, <- !app_assoc. reflexivity. }
    destruct (outcome (sent_text tg _ None)) as [msg | e].
    2:{ eexists. cbn. rewrite Hc, <- !app_assoc. reflexivity. }
    destruct (enhance_image_bytes_sync file_bytes) as [enhanced | e].
    2:{ eexists. cbn. rewrite Hc, <- !app_assoc. reflexivity. }
    destruct (bytes_truthy enhanced).
    2:{ eexists. cbn. rewrite Hc, <- !app_assoc. reflexivity. }
    destruct (outcome (sent_photo tg _ enhanced _));
      eexists; cbn; rewrite Hc, <- !app_assoc; reflexivity.
Qed.

Lemma admitted_user_is_cached_witness :
  let tg := Toy.telegram (Returns "Administrator"%string) (Returns []) in
  let w := Toy.world {[ 1 := 100 ]} 1000 in
  verified_users (snd (@photo_handler Toy.pillow (Toy.config None) tg (Toy.update 1) w))
  = <[ 1 := 1000 + 1 + 12 * 3600 ]> {[ 1 := 100 ]}.
Proof.
  cbn zeta.
  refine (proj1 (@admitted_user_is_cached Toy.pillow (Toy.config None)
            (Toy.telegram (Returns "Administrator"%string) (Returns []))
            (Toy.update 1) (Toy.world {[ 1 := 100 ]} 1000) "Administrator"
            _ eq_refl _)).
  - rewrite is_verified_run. reflexivity.
  - vm_compute. reflexivity.
Defined.

(** Whatever the platform answers, [photo_handler] touches no entry of the
    cache but that of the sender. *)
Theorem photo_handler_other_users_untouched `{Pillow} (cfg : Config) (tg : Telegram)
    (update : Update) (w : World) :
  delete (effective_user_id update) (verified_users (snd (photo_handler cfg tg update w)))
  = delete (effective_user_id update) (verified_users w).
Proof.
  set (user_id := effective_user_id update).
  assert (Hst : delete user_id (verified_users (snd (is_verified user_id w)))
                = delete user_id (verified_users w)).
  { destruct (is_verified_state user_id w) as [E | (E & _)]; rewrite E.
    - reflexivity.
    - cbn. apply delete_delete_eq. }
  destruct (is_verified_returns user_id w) as [[ | ] Hv].
  - rewrite (photo_handler_cached cfg tg update w Hv), fetch_enhance_deliver_cache.
    reflexivity.
  - destruct (outcome (member_status tg (CHANNEL_USERNAME cfg) user_id))
      as [status | e] eqn:Hasked.
    + destruct (any_allowed_in (Str.lower status)) eqn:Hok.
      * rewrite (photo_handler_admitted cfg tg update w status Hv Hasked Hok).
        rewrite fetch_enhance_deliver_cache, mark_verified_run. cbn.
        rewrite delete_insert_eq. exact Hst.
      * rewrite (HandlerFacts.photo_handler_rejected cfg tg update w Hv).
        -- cbn. exact Hst.
        -- fold user_id. rewrite Hasked. exact Hok.
    + destruct (is_Exception e) eqn:He.
      * rewrite (HandlerFacts.photo_handler_rejected cfg tg update w Hv).
        -- cbn. exact Hst.
        -- fold user_id. rewrite Hasked. exact He.
      * rewrite (HandlerFacts.photo_handler_cancelled cfg tg update w e Hv Hasked He).
        cbn. exact Hst.
Qed.

(** When fetching the file fails, at [get_file] or at the download, the
    exception leaves [photo_handler] before the placeholder is sent: the user
    gets no message at all. *)
Theorem download_failure_sends_nothing `{Pillow} (cfg : Config) (tg : Telegram)
    (update : Update) (w : World) (photo tg_file : string) (e : exc) :
  fst (is_verified (effective_user_id update) w) = Returns true ->
  last (message_photo update) = Some photo ->
  outcome (file_of_id tg photo) = Raises e
  \/ (outcome (file_of_id tg photo) = Returns tg_file
      /\ outcome (file_content tg tg_file) = Raises e) ->
  fst (photo_handler cfg tg update w) = Raises e
  /\ (calls (snd (photo_handler cfg tg update w)) = calls w ++ [ GetFile photo ]
      \/ calls (snd (photo_handler cfg tg update w))
         = calls w ++ [ GetFile photo; DownloadAsBytearray tg_file ]).
Proof.
  intros Hv Hlast Hfail.
  rewrite (photo_handler_cached cfg tg update w Hv), fetch_enhance_deliver_run.
  rewrite Hlast. cbv zeta.
  destruct Hfail as [Hfile | [Hfile Hcontent]].
  - rewrite Hfile. split; [ reflexivity | left; reflexivity ].
  - rewrite Hfile, Hcontent. split; [ reflexivity | right ].
    cbn. rewrite <- !app_assoc. reflexivity.
Qed.

Lemma download_failure_sends_nothing_witness :
  let tg := Toy.telegram (Returns "member"%string) (Raises (Exception "NetworkError")) in
  let w := Toy.world {[ 1 := 5000 ]} 1000 in
  fst (@photo_handler Toy.pillow (Toy.config None) tg (Toy.update 1) w)
  = Raises (Exception "NetworkError").
Proof.
  cbn zeta.
  refine (proj1 (@download_failure_sends_nothing Toy.pillow (Toy.config None)
            (Toy.telegram (Returns "member"%string) (Raises (Exception "NetworkError")))
            (Toy.update 1) (Toy.world {[ 1 := 5000 ]} 1000) "large" "large"
            (Exception "NetworkError") _ eq_refl (or_intror (conj eq_refl eq_refl)))).
  rewrite is_verified_run. reflexivity.
Defined.

(** When sending the enhanced photo fails, the exception leaves
    [photo_handler] and the placeholder, sent before, is not deleted. *)
Theorem send_failure_keeps_placeholder `{Pillow} (cfg : Config) (tg : Telegram)
    (update : Update) (w : World)
    (photo tg_file : string) (file_bytes enhanced : bytes) (msg : Z) (e : exc) :
  let text := "⏳ Enhancing your photo, please wait..."%string in
  let caption := "✨ Enhanced by LEGEND EXPERT"%string in
  let chat_id := effective_chat_id update in
  fst (is_verified (effective_user_id update) w) = Returns true ->
  last (message_photo update) = Some photo ->
  outcome (file_of_id tg photo) = Returns tg_file ->
  outcome (file_content tg tg_file) = Returns file_bytes ->
  outcome (sent_text tg text None) = Returns msg ->
  enhance_image_bytes_sync file_bytes = Returns enhanced ->
  bytes_truthy enhanced = true ->
  outcome (sent_photo tg chat_id enhanced caption) = Raises e ->
  fst (photo_handler cfg tg update w) = Raises e
  /\ calls (snd (photo_handler cfg tg update w))
     = calls w ++ [ GetFile photo;
                    DownloadAsBytearray tg_file;
                    ReplyText text None;
                    SendPhoto chat_id enhanced caption ].
Proof.
  intros text caption chat_id Hv Hlast Hfile Hcontent Hsent Hrun Hne Hphoto.
  rewrite (photo_handler_cached cfg tg update w Hv), fetch_enhance_deliver_run.
  rewrite Hlast. cbv zeta. fold text caption chat_id.
  rewrite Hfile, Hcontent, Hsent, Hrun, Hne, Hphoto.
  cbn. rewrite <- !app_assoc. split; reflexivity.
Qed.

Lemma send_failure_keeps_placeholder_witness :
  let tg := Toy.telegram_refusing_photos (Returns "member"%string)
              (Returns (Toy.encode 800 600)) in
  let w := Toy.world {[ 1 := 5000 ]} 1000 in
  fst (@photo_handler Toy.pillow (Toy.config None) tg (Toy.update 1) w)
  = Raises (Exception "Forbidden").
Proof.
  cbn zeta.
  refine (proj1 (@send_failure_keeps_placeholder Toy.pillow (Toy.config None)
            (Toy.telegram_refusing_photos (Returns "member"%string)
               (Returns (Toy.encode 800 600)))
            (Toy.update 1) (Toy.world {[ 1 := 5000 ]} 1000)
            "large" "large" (Toy.encode 800 600) (Toy.encode 800 600) 7
            (Exception "Forbidden") _ eq_refl eq_refl eq_refl eq_refl _ eq_refl eq_refl)).
  - rewrite is_verified_run. reflexivity.
  - vm_compute. reflexivity.
Defined.

(** An update without photo sizes makes a cached user's handler raise
    [IndexError] before any request. *)
Theorem no_photo_sizes_raises `{Pillow} (cfg : Config) (tg : Telegram)
    (update : Update) (w : World) :
  fst (is_verified (effective_user_id update) w) = Returns true ->
  message_photo update = [] ->
  photo_handler cfg tg update w = (Raises (Exception "IndexError"), w).
Proof.
  intros Hv Hempty.
  rewrite (photo_handler_cached cfg tg update w Hv), fetch_enhance_deliver_run.
  rewrite Hempty. reflexivity.
Qed.

Lemma no_photo_sizes_raises_witness :
  @photo_handler Toy.pillow (Toy.config None)
    (Toy.telegram (Returns "member"%string) (Returns []))
    {| effective_user_id := 1; effective_chat_id := 500; message_photo := [] |}
    (Toy.world {[ 1 := 5000 ]} 1000)
  = (Raises (Exception "IndexError"), Toy.world {[ 1 := 5000 ]} 1000).
Proof.
  refine (@no_photo_sizes_raises Toy.pillow (Toy.config None)
            (Toy.telegram (Returns "member"%string) (Returns []))
            {| effective_user_id := 1; effective_chat_id := 500; message_photo := [] |}
            (Toy.world {[ 1 := 5000 ]} 1000) _ eq_refl).
  rewrite is_verified_run. reflexivity.
Defined.

(** With a Pillow whose [save] never gives empty bytes, no run of
    [photo_handler] edits the placeholder: the text "Enhancement failed" is
    never shown, whatever the platform answers and whatever the photo. *)
Theorem failure_text_never_shown `{Pillow} (cfg : Config) (tg : Telegram)
    (update : Update) (w : World) :
  (forall im q o b, im_save im "JPEG" q o = Returns b -> b <> []) ->
  exists cs,
    calls (snd (photo_handler cfg tg update w)) = calls w ++ cs
    /\ forall m t, ~ In (EditText m t) cs.
Proof.
  intros Hsave.
  assert (Hpipe : forall fb, enhance_image_bytes_sync fb <> Returns []).
  { intros fb. unfold enhance_image_bytes_sync.
    destruct (Image_open fb) as [im | e]; cbn; [ | discriminate ].
    destruct (if 2000 <? long_edge (im_convert "RGB" im) then _ else _) as [im' | e];
      cbn; [ | discriminate ].
    intros Hs. exact (Hsave _ _ _ _ Hs eq_refl). }
  set (user_id := effective_user_id update).
  destruct (is_verified_returns user_id w) as [[ | ] Hv].
  - rewrite (photo_handler_cached cfg tg update w Hv).
    destruct (fetch_enhance_deliver_edits cfg tg update w) as (cs & Hcs & Hedit).
    exists cs. split; [ exact Hcs | ].
    intros m t Hin. destruct (Hedit m t Hin) as [fb Hfb]. exact (Hpipe fb Hfb).
  - destruct (outcome (member_status tg (CHANNEL_USERNAME cfg) user_id))
      as [status | e] eqn:Hasked.
    + destruct (any_allowed_in (Str.lower status)) eqn:Hok.
      * rewrite (photo_handler_admitted cfg tg update w status Hv Hasked Hok).
        fold user_id.
        destruct (fetch_enhance_deliver_edits cfg tg update
                    (snd (mark_verified user_id VERIFIED_TTL
                            (after_call (GetChatMember (CHANNEL_USERNAME cfg) user_id)
                               (member_status tg (CHANNEL_USERNAME cfg) user_id)
                               (snd (is_verified user_id w))))))
          as (cs & Hcs & Hedit).
        exists (GetChatMember (CHANNEL_USERNAME cfg) user_id :: cs). split.
        -- rewrite Hcs, mark_verified_run. cbn. rewrite is_verified_calls.
           rewrite <- app_assoc. reflexivity.
        -- intros m t [Hin | Hin]; [ discriminate | ].
           destruct (Hedit m t Hin) as [fb Hfb]. exact (Hpipe fb Hfb).
      * rewrite (HandlerFacts.photo_handler_rejected cfg tg update w Hv);
          [ | fold user_id; rewrite Hasked; exact Hok ].
        eexists. split.
        -- cbn. rewrite is_verified_calls, <- app_assoc. reflexivity.
        -- cbn. intros m t Hin. intuition discriminate.
    + destruct (is_Exception e) eqn:He.
      * rewrite (HandlerFacts.photo_handler_rejected cfg tg update w Hv);
          [ | fold user_id; rewrite Hasked; exact He ].
        eexists. split.
        -- cbn. rewrite is_verified_calls, <- app_assoc. reflexivity.
        -- cbn. intros m t Hin. intuition discriminate.
      * rewrite (HandlerFacts.photo_handler_cancelled cfg tg update w e Hv Hasked He).
        eexists. split.
        -- cbn. rewrite is_verified_calls. reflexivity.
        -- cbn. intros m t Hin. intuition discriminate.
Qed.

Lemma failure_text_never_shown_witness :
  exists cs,
    calls (snd (@photo_handler Toy.pillow (Toy.config None)
                  (Toy.telegram (Returns "member"%string) (Returns []))
                  (Toy.update 1) (Toy.world {[ 1 := 5000 ]} 1000)))
    = calls (Toy.world {[ 1 := 5000 ]} 1000) ++ cs
    /\ forall m t, ~ In (EditText m t) cs.
Proof.
  refine (@failure_text_never_shown Toy.pillow (Toy.config None)
            (Toy.telegram (Returns "member"%string) (Returns []))
            (Toy.update 1) (Toy.world {[ 1 := 5000 ]} 1000) _).
  intros im q o b. cbn. unfold Toy.save.
  destruct (_ && _); [ | discriminate ]. intros [= <-]. discriminate.
Defined.

(** What [callback_query_handler] does to the cache: when the query is
    answered and the membership check succeeds, the sender is entered with
    the expiry 12 hours after the moment the membership answer arrived; in
    every other case the cache is unchanged, an expired entry of the sender
    included. *)
Theorem callback_cache_effect (cfg : Config) (tg : Telegram)
    (update : Update) (w : World) :
  let user_id := effective_user_id update in
  let asked := member_status tg (CHANNEL_USERNAME cfg) user_id in
  verified_users (snd (callback_query_handler cfg tg update w))
  = match outcome (answered_query tg), outcome asked with
    | Returns _, Returns status =>
        if any_allowed_in (Str.lower status)
        then <[ user_id := clock w + elapsed (answered_query tg) + elapsed asked + 12 * 3600 ]>
               (verified_users w)
        else verified_users w
    | _, _ => verified_users w
    end.
Proof.
  intros user_id asked. apply callback_cache_unfolded.
Qed.

(** The requests of [callback_query_handler]: the query is answered first;
    if that raises, nothing else is requested and the exception leaves the
    handler.  Otherwise one membership request follows.  When it returns, or
    raises an instance of [Exception], the message is edited once, to the
    welcome when the check succeeded and to the join prompt when it did not,
    and the handler gives what the edit gives.  When it raises another
    [BaseException], the handler raises it and edits nothing. *)
Theorem callback_requests (cfg : Config) (tg : Telegram)
    (update : Update) (w : World) :
  let user_id := effective_user_id update in
  let asked := member_status tg (CHANNEL_USERNAME cfg) user_id in
  let welcome := "✅ Verified!
Send a photo and LEGEND EXPERT will enhance it ✨"%string in
  let prompt := "❌ Please join the channel first."%string in
  calls (snd (callback_query_handler cfg tg update w))
  = calls w ++
    match outcome (answered_query tg) with
    | Raises _ => [ AnswerCallbackQuery ]
    | Returns _ =>
        match outcome asked with
        | Returns status =>
            [ AnswerCallbackQuery;
              GetChatMember (CHANNEL_USERNAME cfg) user_id;
              EditMessageText
                (if any_allowed_in (Str.lower status) then welcome else prompt) ]
        | Raises e =>
            if is_Exception e
            then [ AnswerCallbackQuery;
                   GetChatMember (CHANNEL_USERNAME cfg) user_id;
                   EditMessageText prompt ]
            else [ AnswerCallbackQuery;
                   GetChatMember (CHANNEL_USERNAME cfg) user_id ]
        end
    end
  /\ fst (callback_query_handler cfg tg update w)
     = match outcome (answered_query tg) with
       | Raises e => Raises e
       | Returns _ =>
           match outcome asked with
           | Returns status =>
               outcome (edited_message_text tg
                          (if any_allowed_in (Str.lower status) then welcome else prompt))
           | Raises e =>
               if is_Exception e
               then outcome (edited_message_text tg prompt)
               else Raises e
           end
       end.
Proof.
  intros user_id asked welcome prompt. rewrite callback_query_handler_run. cbv zeta.
  fold user_id asked welcome prompt.
  destruct (outcome (answered_query tg)) as [ [] | e ].
  - destruct (outcome asked) as [status | e];
      [ destruct (any_allowed_in (Str.lower status)) | destruct (is_Exception e) ];
      (split; [ | reflexivity ]);
      rewrite ?mark_verified_run; cbn; rewrite <- ?app_assoc; reflexivity.
  - split; reflexivity.
Qed.

(** A user admitted by [callback_query_handler] is served by [photo_handler]
    without a new membership request for the 12 hours that follow, the last
    second included, whatever the platform would answer by then. *)
Theorem verified_by_callback_skips_check `{Pillow} (cfg : Config) (tg tg' : Telegram)
    (update update' : Update) (w : World) (status : string) (dt : Z) (cs : list Call) :
  let user_id := effective_user_id update in
  let asked := member_status tg (CHANNEL_USERNAME cfg) user_id in
  let written := clock w + elapsed (answered_query tg) + elapsed asked in
  0 < written ->
  outcome (answered_query tg) = Returns tt ->
  outcome asked = Returns status ->
  any_allowed_in (Str.lower status) = true ->
  effective_user_id update' = user_id ->
  let w' := later dt cs (snd (callback_query_handler cfg tg update w)) in
  clock w' <= written + 12 * 3600 ->
  photo_handler cfg tg' update' w' = fetch_enhance_deliver cfg tg' update' w'.
Proof.
  intros user_id asked written Hpos Hans Hst Hok Huser w' Hclock.
  apply photo_handler_cached. rewrite Huser.
  apply is_verified_true_iff.
  exists (written + 12 * 3600).
  split; [ | split; [ lia | exact Hclock ] ].
  subst w'. unfold later. cbn [verified_users].
  rewrite (callback_cache_unfolded cfg tg update w). fold user_id asked.
  rewrite Hans, Hst, Hok. apply lookup_insert_eq.
Qed.

Lemma verified_by_callback_skips_check_witness :
  let tg := Toy.telegram (Returns "member"%string) (Returns []) in
  let w' := later 43199 []
              (snd (callback_query_handler (Toy.config None) tg
                      (Toy.update 1) (Toy.world ∅ 1000))) in
  @photo_handler Toy.pillow (Toy.config None) tg (Toy.update 1) w'
  = @fetch_enhance_deliver Toy.pillow (Toy.config None) tg (Toy.update 1) w'.
Proof.
  cbn zeta.
  refine (@verified_by_callback_skips_check Toy.pillow (Toy.config None)
            (Toy.telegram (Returns "member"%string) (Returns []))
            (Toy.telegram (Returns "member"%string) (Returns []))
            (Toy.update 1) (Toy.update 1) (Toy.world ∅ 1000) "member" 43199 []
            _ eq_refl eq_refl _ eq_refl _).
  - cbn. lia.
  - vm_compute. reflexivity.
  - rewrite callback_query_handler_run. vm_compute. discriminate.
Defined.

End HandlerMore.

(* ================================================================== *)
(** * More on the verification cache *)
(* ================================================================== *)

Module CacheMore.
Import CacheFacts.


(** [is_verified] for one user does not change the answer for another. *)
Theorem is_verified_other_user (u v : Z) (w : World) :
  u <> v ->
  fst (is_verified v (snd (is_verified u w))) = fst (is_verified v w)
  /\ verified_users (snd (is_verified u w)) !! v = verified_users w !! v.
Proof.
  intros Hne.
  assert (Hl : verified_users (snd (is_verified u w)) !! v = verified_users w !! v
               /\ clock (snd (is_verified u w)) = clock w).
  { destruct (is_verified_state u w) as [E | (E & _)]; rewrite E.
    - split; reflexivity.
    - cbn. split; [ apply lookup_delete_ne; exact Hne | reflexivity ]. }
  destruct Hl as [Hl Hc]. split; [ | exact Hl ].
  rewrite (is_verified_run v (snd (is_verified u w))), Hl, Hc.
  rewrite (is_verified_run v w).
  destruct (verified_users w !! v) as [exp | ]; [ | reflexivity ].
  destruct (exp =? 0); [ reflexivity | ].
  destruct (exp <? clock w); reflexivity.
Qed.

Lemma is_verified_other_user_witness :
  fst (is_verified 2 (snd (is_verified 1 (Toy.world {[ 1 := 100; 2 := 5000 ]} 1000))))
  = fst (is_verified 2 (Toy.world {[ 1 := 100; 2 := 5000 ]} 1000)).
Proof.
  refine (proj1 (is_verified_other_user 1 2 (Toy.world {[ 1 := 100; 2 := 5000 ]} 1000) _)).
  lia.
Defined.

(** The later [mark_verified] wins, also with the shorter duration: the
    entry is the time of the second call plus its duration, and the other
    entries are as before the first. *)
Theorem mark_verified_last_write_wins (user_id ttl1 ttl2 dt : Z) (cs : list Call)
    (w : World) :
  verified_users
    (snd (mark_verified user_id ttl2
            (later dt cs (snd (mark_verified user_id ttl1 w)))))
  = <[ user_id := clock w + dt + ttl2 ]> (verified_users w).
Proof.
  rewrite !mark_verified_run. cbn. apply insert_insert_eq.
Qed.

(** From [mark_verified] on and as long as the clock has not passed the
    expiry, the instant of expiry included, [is_verified] answers [True] and
    changes nothing. *)
Theorem verified_until_expiry (user_id ttl dt : Z) (cs : list Call) (w : World) :
  0 < clock w -> 0 <= ttl -> dt <= ttl ->
  let w' := later dt cs (snd (mark_verified user_id ttl w)) in
  is_verified user_id w' = (Returns true, w').
Proof.
  intros Hc Httl Hdt w'. subst w'. rewrite mark_verified_run. cbn [snd].
  rewrite is_verified_run. unfold later at 1. cbn [verified_users clock].
  rewrite lookup_insert_eq.
  destruct (Z.eqb_spec (clock w + ttl) 0); [ lia | ].
  destruct (Z.ltb_spec (clock w + ttl) (clock (later dt cs
              {| verified_users := <[user_id := clock w + ttl]> (verified_users w);
                 clock := clock w;
                 calls := calls w |}))) as [ Hlt | Hge ];
    [ cbn in Hlt; lia | reflexivity ].
Qed.

Lemma verified_until_expiry_witness :
  is_verified 1 (later 43200 [] (snd (mark_verified 1 43200 (Toy.world ∅ 1000))))
  = (Returns true, later 43200 [] (snd (mark_verified 1 43200 (Toy.world ∅ 1000)))).
Proof.
  refine (verified_until_expiry 1 43200 43200 [] (Toy.world ∅ 1000) _ _ _);
    cbn; lia.
Defined.

End CacheMore.

(* ================================================================== *)
(** * More on the resize step *)
(* ================================================================== *)

Module ResizeMore.
Import Float FloatFacts ResizeFacts.

(** Each edge of the requested size is the integer quotient
    [2000 * edge / long], or one less; it is that quotient whenever
    [2000 * edge] is no multiple of [long].  The sizes are those of C ints. *)
Lemma scaled_edge_floor (h m : Z) :
  0 <= h <= m -> 0 < m < 2 ^ 31 ->
  2000 * h / m - 1 <= scaled_edge h m <= 2000 * h / m
  /\ ((2000 * h) mod m <> 0 -> scaled_edge h m = 2000 * h / m).
Proof.
  intros [Hh Hhm] [Hm0 Hm1].
  assert (Hc : h = 0 \/ 0 < h) by lia. destruct Hc as [-> | Hpos].
  { rewrite scaled_edge_zero. change (2000 * 0) with 0.
    rewrite Zdiv_0_l, Zmod_0_l. split; [ lia | intros Hn; contradiction ]. }
  destruct (scaled_product_near h m ltac:(lia)) as (Lo & Hi & Hx0 & Hx1 & _).
  unfold scaled_edge. set (p := float_mul _ _) in *.
  set (x := (inject_Z h * (2000 / inject_Z m))%Q) in *.
  pose proof (Z.div_mod (2000 * h) m ltac:(lia)) as Hdiv.
  pose proof (Z.mod_pos_bound (2000 * h) m Hm0) as Hmod.
  set (q := 2000 * h / m) in *. set (r := (2000 * h) mod m) in *.
  assert (Hm' : (0 < inject_Z m)%Q) by (rewrite Zlt_Qlt in Hm0; exact Hm0).
  assert (Hm2 : (inject_Z m <= 2147483648)%Q).
  { change (2147483648)%Q with (inject_Z (2 ^ 31)). rewrite <- Zle_Qle. lia. }
  assert (Hxm : (x * inject_Z m == inject_Z q * inject_Z m + inject_Z r)%Q).
  { subst x. rewrite <- inject_Z_mult, <- inject_Z_plus.
    replace (q * m + r) with (2000 * h) by lia.
    rewrite inject_Z_mult. change (inject_Z 2000) with 2000%Q. field. lra. }
  assert (Hr0 : (0 <= inject_Z r)%Q).
  { change 0%Q with (inject_Z 0). rewrite <- Zle_Qle. lia. }
  assert (Hr1 : (inject_Z r + 1 <= inject_Z m)%Q).
  { change 1%Q with (inject_Z 1). rewrite <- inject_Z_plus, <- Zle_Qle. lia. }
  set (M := inject_Z m) in *. set (Qq := inject_Z q) in *. set (R := inject_Z r) in *.
  assert (Hpm_hi : (p * M <= x * M + (1 # 549755813888) * M)%Q).
  { apply Qle_trans with ((x + (1 # 549755813888)) * M)%Q.
    - apply Qmult_le_compat_r; lra.
    - apply Qle_lteq. right. ring. }
  assert (Hpm_lo : (x * M - (1 # 549755813888) * M <= p * M)%Q).
  { apply Qle_trans with ((x - (1 # 549755813888)) * M)%Q.
    - apply Qle_lteq. right. ring.
    - apply Qmult_le_compat_r; lra. }
  assert (Hq0 : 0 <= q) by (subst q; apply Z.div_pos; lia).
  assert (Hup : (p < inject_Z (q + 1))%Q).
  { apply (proj1 (Qmult_lt_r _ _ M Hm')). rewrite inject_Z_plus. fold Qq.
    change (inject_Z 1) with 1%Q.
    assert (E : ((Qq + 1) * M == Qq * M + M)%Q) by ring. rewrite E. lra. }
  assert (Hp0 : (0 <= p)%Q).
  { assert (HqQ : (0 <= Qq)%Q).
    { subst Qq. change 0%Q with (inject_Z 0). rewrite <- Zle_Qle. exact Hq0. }
    apply Qnot_lt_le. intros Hneg.
    assert (Hx1' : (x <= (1 # 549755813888))%Q) by lra.
    assert (HxM : (1 <= x * M)%Q).
    { assert (E : (x * M == inject_Z (2000 * h))%Q).
      { rewrite Hxm. subst Qq M R. rewrite <- inject_Z_mult, <- inject_Z_plus.
        replace (q * m + r) with (2000 * h) by lia. reflexivity. }
      rewrite E. change 1%Q with (inject_Z 1). rewrite <- Zle_Qle. lia. }
    assert (HxM' : (x * M <= (1 # 549755813888) * M)%Q)
      by (apply Qmult_le_compat_r; lra).
    lra. }
  pose proof (int_of_float_lt p (q + 1) Hp0 Hup) as [_ Hle].
  assert (Hlow : (inject_Z (q - 1) <= p)%Q).
  { unfold Z.sub. rewrite inject_Z_plus. fold Qq. change (inject_Z (- 1)) with (- (1))%Q.
    apply Qnot_lt_le. intros Hlt.
    assert (HA : (p * M < (Qq + - (1)) * M)%Q) by (apply Qmult_lt_compat_r; assumption).
    assert (E : ((Qq + - (1)) * M == Qq * M - M)%Q) by ring. rewrite E in HA. lra. }
  pose proof (int_of_float_ge p (q - 1) Hlow) as Hge.
  split; [ lia | ].
  intros Hr. assert (Hr' : (1 <= R)%Q).
  { subst R. change 1%Q with (inject_Z 1). rewrite <- Zle_Qle. lia. }
  assert (Hlow' : (inject_Z q <= p)%Q).
  { fold Qq. apply Qnot_lt_le. intros Hlt.
    assert (HA : (p * M < Qq * M)%Q) by (apply Qmult_lt_compat_r; assumption).
    lra. }
  pose proof (int_of_float_ge p q Hlow'). lia.
Qed.

(** The size requested from [resize] for an image whose long edge exceeds
    2000 (sizes being C ints): each edge is the integer quotient of
    [2000 * edge] by the long edge, or one less, and exactly that quotient
    when the division leaves a remainder.  The aspect ratio is kept to within
    one pixel. *)
Theorem resize_target_floor (w h : Z) :
  0 <= w -> 0 <= h -> 2000 < Z.max w h < 2 ^ 31 ->
  let m := Z.max w h in
  (2000 * w / m - 1 <= fst (resize_target w h) <= 2000 * w / m)
  /\ (2000 * h / m - 1 <= snd (resize_target w h) <= 2000 * h / m)
  /\ ((2000 * w) mod m <> 0 -> fst (resize_target w h) = 2000 * w / m)
  /\ ((2000 * h) mod m <> 0 -> snd (resize_target w h) = 2000 * h / m).
Proof.
  intros Hw Hh Hm m. rewrite resize_target_edges. cbn [fst snd]. fold m.
  destruct (scaled_edge_floor w m ltac:(lia) ltac:(lia)) as [Hw1 Hw2].
  destruct (scaled_edge_floor h m ltac:(lia) ltac:(lia)) as [Hh1 Hh2].
  repeat split; try lia; assumption.
Qed.

Lemma resize_target_floor_witness :
  snd (resize_target 2105 1000) = 2000 * 1000 / 2105.
Proof.
  refine (proj2 (proj2 (proj2 (resize_target_floor 2105 1000 _ _ _))) _).
  - lia.
  - lia.
  - cbn. lia.
  - cbn. discriminate.
Defined.

(** An image more than 2000 times as long as it is high is asked to be
    resized to the height 0. *)
Theorem thin_image_loses_short_edge (w h : Z) :
  0 <= h -> 2000 < w < 2 ^ 31 -> 2000 * h < w ->
  snd (resize_target w h) = 0
  /\ 1999 <= fst (resize_target w h) <= 2000.
Proof.
  intros Hh Hw Hthin.
  assert (Hmax : Z.max w h = w) by lia.
  rewrite resize_target_edges, Hmax. cbn [fst snd]. split.
  - destruct (scaled_edge_floor h w ltac:(lia) ltac:(lia)) as [Hb _].
    pose proof (scaled_edge_le h w ltac:(lia)) as Hnn.
    rewrite Z.div_small in Hb by lia. lia.
  - apply scaled_edge_long. lia.
Qed.

Lemma thin_image_loses_short_edge_witness :
  snd (resize_target 4000 1) = 0 /\ 1999 <= fst (resize_target 4000 1) <= 2000.
Proof.
  refine (thin_image_loses_short_edge 4000 1 _ _ _); cbn; lia.
Defined.

End ResizeMore.

(* ================================================================== *)
(** * More on the pipeline and the keyboard *)
(* ================================================================== *)

Module PipelineMore.
Import ResizeFacts PipelineFacts.

(** When the pipeline succeeds on the encoding of an image, what it returns
    is the JPEG of an RGB image, of the size of the input when the long edge
    is at most 2000 and of the size computed by the resize step otherwise;
    decoding the output gives an image of that size. *)
Theorem pipeline_output_size `{PillowLaws} (b out : bytes) (im : Image) :
  Image_open b = Returns im ->
  enhance_image_bytes_sync b = Returns out ->
  let expected :=
    if 2000 <? long_edge im
    then resize_target (im_width im) (im_height im)
    else im_size im in
  (exists written,
     im_save written "JPEG" 92 true = Returns out
     /\ im_mode written = "RGB"%string
     /\ im_size written = expected)
  /\ (exists decoded, Image_open out = Returns decoded /\ im_size decoded = expected).
Proof.
  intros Hopen Hrun expected.
  assert (Hw : exists written,
             im_save written "JPEG" 92 true = Returns out
             /\ im_mode written = "RGB"%string
             /\ im_size written = expected).
  { unfold enhance_image_bytes_sync in Hrun. rewrite Hopen in Hrun. cbn in Hrun.
    assert (E : long_edge (im_convert "RGB" im) = long_edge im).
    { unfold long_edge, im_width, im_height. rewrite size_convert. reflexivity. }
    assert (Ew : im_width (im_convert "RGB" im) = im_width im).
    { unfold im_width. rewrite size_convert. reflexivity. }
    assert (Eh : im_height (im_convert "RGB" im) = im_height im).
    { unfold im_height. rewrite size_convert. reflexivity. }
    rewrite E, Ew, Eh in Hrun. subst expected.
    destruct (2000 <? long_edge im).
    - destruct (im_resize _ LANCZOS _) as [im2 | e] eqn:R; cbn in Hrun; [ | discriminate ].
      eexists. split; [ exact Hrun | ]. split.
      + rewrite mode_after_transforms, (mode_resize _ _ _ _ R). apply mode_convert.
      + rewrite size_after_transforms. apply (size_resize _ _ _ _ R).
    - cbn in Hrun. eexists. split; [ exact Hrun | ]. split.
      + rewrite mode_after_transforms. apply mode_convert.
      + rewrite size_after_transforms. apply size_convert. }
  split; [ exact Hw | ].
  destruct Hw as (written & Hsave & _ & Hsize).
  destruct (open_saved written 92 true out Hsave) as (decoded & Hdec & Hds).
  exists decoded. split; [ exact Hdec | ]. rewrite Hds. exact Hsize.
Qed.

Lemma pipeline_output_size_witness :
  exists decoded,
    Toy.decode (Toy.encode 1999 950) = Returns decoded
    /\ (Toy.width decoded, Toy.height decoded) = resize_target 2105 1000.
Proof.
  refine (proj2 (@pipeline_output_size Toy.pillow ToyFacts.laws
                   (Toy.encode 2105 1000) (Toy.encode 1999 950)
                   {| Toy.mode := "RGB"; Toy.width := 2105; Toy.height := 1000 |} _ _)).
  - vm_compute. reflexivity.
  - vm_compute. reflexivity.
Defined.

(** Running the pipeline on its own output changes the size no more: the
    second output decodes to an image of the size of the first. *)
Theorem second_pass_keeps_size `{PillowLaws} (b out : bytes) :
  enhance_image_bytes_sync b = Returns out ->
  exists (out2 : bytes) (im1 im2 : Image),
    enhance_image_bytes_sync out = Returns out2
    /\ Image_open out = Returns im1
    /\ Image_open out2 = Returns im2
    /\ im_size im2 = im_size im1.
Proof.
  intros Hrun.
  destruct (pipeline_output b out Hrun) as (im & Hsave & Hmode & Hlong).
  destruct (open_saved im 92 true out Hsave) as (im1 & Hopen & Hsize).
  assert (Hlong1 : long_edge im1 <= 2000).
  { unfold long_edge, im_width, im_height in *. rewrite Hsize. exact Hlong. }
  pose proof (no_resize_up_to_2000 out im1 Hopen Hlong1) as Hrun2.
  set (last_image := im_filter DETAIL _) in Hrun2.
  assert (Hsize2 : im_size last_image = im_size im1).
  { subst last_image. rewrite size_after_transforms. apply size_convert. }
  assert (Hmode2 : im_mode last_image = im_mode im).
  { subst last_image. rewrite mode_after_transforms, mode_convert, Hmode. reflexivity. }
  assert (Hsz : im_size last_image = im_size im) by (rewrite Hsize2; exact Hsize).
  pose proof (save_by_shape last_image im "JPEG" 92 true Hmode2 Hsz) as Hshape.
  rewrite Hsave in Hshape. cbn in Hshape.
  destruct (im_save last_image "JPEG" 92 true) as [out2 | e] eqn:Hsave2; [ | discriminate ].
  destruct (open_saved last_image 92 true out2 Hsave2) as (im2 & Hopen2 & Hs2).
  exists out2, im1, im2. repeat split; try assumption.
  rewrite Hs2. exact Hsize2.
Qed.

Lemma second_pass_keeps_size_witness :
  exists (out2 : bytes) (im1 im2 : Toy.image),
    @enhance_image_bytes_sync Toy.pillow (Toy.encode 2000 1500) = Returns out2
    /\ Toy.decode (Toy.encode 2000 1500) = Returns im1
    /\ Toy.decode out2 = Returns im2
    /\ (Toy.width im2, Toy.height im2) = (Toy.width im1, Toy.height im1).
Proof.
  refine (@second_pass_keeps_size Toy.pillow ToyFacts.laws
            (Toy.encode 4000 3000) (Toy.encode 2000 1500) _).
  vm_compute. reflexivity.
Defined.

End PipelineMore.

Module KeyboardFacts.
Local Open Scope string_scope.

Lemma lstrip_spec (c : ascii) (s : string) :
  exists n, s = Str.copies n c ++ Str.lstrip c s
            /\ (forall rest, Str.lstrip c s <> String c rest).
Proof.
  induction s as [ | a s IH ].
  - exists O. split; [ reflexivity | discriminate ].
  - cbn [Str.lstrip]. destruct (Ascii.eqb_spec a c) as [-> | Hne].
    + destruct IH as (n & E & Hn). exists (S n). split; [ | exact Hn ].
      cbn [Str.copies]. change (String c s = String c (Str.copies n c ++ Str.lstrip c s)).
      rewrite <- E. reflexivity.
    + exists O. split; [ reflexivity | ]. intros rest [= Ha _]. contradiction.
Qed.

(** The join button links to the channel name with every leading "@"
    removed, after "https://t.me/"; the keyboard is that button above the
    button that sends "check_membership". *)
Theorem join_keyboard_link (cfg : Config) :
  exists (n : nat) (name : string),
    CHANNEL_USERNAME cfg = Str.copies n "@" ++ name
    /\ (forall rest, name <> String "@" rest)
    /\ build_join_keyboard cfg
       = [ [ {| button_text := "Join Channel";
                button_url := Some ("https://t.me/" ++ name);
                button_callback_data := None |} ];
           [ {| button_text := "I've Joined — Check";
                button_url := None;
                button_callback_data := Some "check_membership" |} ] ].
Proof.
  destruct (lstrip_spec "@" (CHANNEL_USERNAME cfg)) as (n & E & Hn).
  exists n, (Str.lstrip "@" (CHANNEL_USERNAME cfg)).
  split; [ exact E | ]. split; [ exact Hn | reflexivity ].
Qed.

End KeyboardFacts.
